(** * Ballbot balance application: soft real-time loop and control pipeline

    A shallow embedding of [ballbot-omni-app/bbot_app.py]: the [LoopKiller]
    and [SoftRealtimeLoop] classes, the kinematic matrix [J], the yaw input
    of [MoController], and the [__main__] control loop with its command
    mixing and shutdown command.

    Python floats are idealised as real numbers: arithmetic is exact, and
    the constants built with [np.cos], [np.sin], [np.sqrt] and [np.deg2rad]
    are the corresponding reals.  The one exception is the addition that
    advances the scheduler's deadline: the deadline grid depends on whether
    that addition rounds, so the scheduler is defined over an arbitrary
    addition ([DeadlineArith]) and the same updates are also run on binary64
    values ([Binary64]).  Everything the program reads from its
    environment (the wall clock, pending signals, the serial device, the
    gamepad thread) is supplied by an oracle [Env]; a [Cursor] records how
    much of each oracle has been consumed and which commands were written. *)

From Stdlib Require Import Reals Lra Lia ZArith List Bool.
From Stdlib Require Floats.
Import ListNotations.
Open Scope R_scope.

(** ** Messages exchanged with the motor controller *)

(** The fields of [mo_states_dtype] read by the control loop. *)
Record States := mkStates {
  theta_roll : R;
  theta_pitch : R;
  dpsi_1 : R;
  dpsi_2 : R;
  dpsi_3 : R
}.

(** The fields of [mo_cmds_dtype] written by the control loop. *)
Record Commands := mkCommands {
  kill : R;
  motor_1_duty : R;
  motor_2_duty : R;
  motor_3_duty : R
}.

(** Outcome of [ser_dev.get_cur_topic_data(121)[0]]: the latest state
    message, or [KeyError] while no message of that topic has arrived. *)
Inductive SensorRead :=
| SensorData (st : States)
| SensorKeyError.

(** ** Environment oracle and effects *)

Record Env := mkEnv {
  clock : nat -> R;          (* successive values of [time.time()] *)
  sigwait : nat -> bool;     (* successive [signal.sigtimedwait(..., 0)]: a signal was pending *)
  handler : nat -> bool;     (* a termination signal reached [handle_signal] before this poll *)
  mono : nat -> R;           (* successive values of the PID library's clock *)
  sensor : nat -> SensorRead;(* successive reads of topic 121 *)
  yaw : nat -> R;            (* successive reads of [mo_controller.Tz] *)
  write_ok : nat -> bool     (* whether the successive serial writes succeed *)
}.

Record Cursor := mkCursor {
  clock_i : nat;
  sigwait_i : nat;
  handler_i : nat;
  mono_i : nat;
  sensor_i : nat;
  yaw_i : nat;
  write_i : nat;
  sent : list Commands       (* commands passed to [send_topic_data], oldest first *)
}.

Definition cursor0 : Cursor := mkCursor 0 0 0 0 0 0 0 [].

(** Python exceptions raised by the modelled code. *)
Inductive exn :=
| ZeroDivisionError
| TypeError
| ValueError
| WriteFault.

(** [Starved] marks a loop that is still running when its fuel is spent. *)
Inductive result (A : Type) :=
| Ok (a : A)
| Raise (x : exn)
| Starved.
Arguments Ok {A} a.
Arguments Raise {A} x.
Arguments Starved {A}.

Definition M (A : Type) : Type := Env -> Cursor -> result A * Cursor.

Definition ret {A} (a : A) : M A := fun _ c => (Ok a, c).

Definition bind {A B} (m : M A) (f : A -> M B) : M B :=
  fun e c =>
    match m e c with
    | (Ok a, c') => f a e c'
    | (Raise x, c') => (Raise x, c')
    | (Starved, c') => (Starved, c')
    end.

Definition raise {A} (x : exn) : M A := fun _ c => (Raise x, c).

Definition starve {A} : M A := fun _ c => (Starved, c).

Notation "x <- m ;; k" := (bind m (fun x => k))
  (at level 61, m at next level, right associativity).
Notation "' pat <- m ;; k" := (bind m (fun x => match x with pat => k end))
  (at level 61, pat pattern, m at next level, right associativity).
Notation "m ;;; k" := (bind m (fun _ => k))
  (at level 61, right associativity).

Definition adv_clock (c : Cursor) : Cursor :=
  mkCursor (S (clock_i c)) (sigwait_i c) (handler_i c) (mono_i c)
           (sensor_i c) (yaw_i c) (write_i c) (sent c).

Definition adv_sigwait (c : Cursor) : Cursor :=
  mkCursor (clock_i c) (S (sigwait_i c)) (handler_i c) (mono_i c)
           (sensor_i c) (yaw_i c) (write_i c) (sent c).

Definition adv_handler (c : Cursor) : Cursor :=
  mkCursor (clock_i c) (sigwait_i c) (S (handler_i c)) (mono_i c)
           (sensor_i c) (yaw_i c) (write_i c) (sent c).

Definition adv_mono (c : Cursor) : Cursor :=
  mkCursor (clock_i c) (sigwait_i c) (handler_i c) (S (mono_i c))
           (sensor_i c) (yaw_i c) (write_i c) (sent c).

Definition adv_sensor (c : Cursor) : Cursor :=
  mkCursor (clock_i c) (sigwait_i c) (handler_i c) (mono_i c)
           (S (sensor_i c)) (yaw_i c) (write_i c) (sent c).

Definition adv_yaw (c : Cursor) : Cursor :=
  mkCursor (clock_i c) (sigwait_i c) (handler_i c) (mono_i c)
           (sensor_i c) (S (yaw_i c)) (write_i c) (sent c).

Definition adv_write (cmd : Commands) (c : Cursor) : Cursor :=
  mkCursor (clock_i c) (sigwait_i c) (handler_i c) (mono_i c)
           (sensor_i c) (yaw_i c) (S (write_i c)) (sent c ++ [cmd]).

(** [time.time()] *)
Definition time_time : M R :=
  fun e c => (Ok (clock e (clock_i c)), adv_clock c).

(** [signal.sigtimedwait([SIGTERM, SIGINT, SIGHUP], 0)], as a truth value *)
Definition sigtimedwait : M bool :=
  fun e c => (Ok (sigwait e (sigwait_i c)), adv_sigwait c).

(** Whether the interpreter ran the registered signal handler since the
    last poll of the killer. *)
Definition signal_delivered : M bool :=
  fun e c => (Ok (handler e (handler_i c)), adv_handler c).

(** Float division: [ZeroDivisionError] on a zero divisor. *)
Definition py_div (x y : R) : M R :=
  if Req_dec_T y 0 then raise ZeroDivisionError else ret (x / y).

(** [x - y] where [y] may be [None]: a [TypeError] then. *)
Definition py_sub (x : R) (y : option R) : M R :=
  match y with
  | Some v => ret (x - v)
  | None => raise TypeError
  end.

(** ** LoopKiller *)

Module LoopKiller.

Record t := mk {
  _fade_time : R;
  _soft_kill_time : option R;
  _kill_now : bool;
  _kill_soon : bool
}.

(** [__init__]: the three handlers are registered (their deliveries are the
    [handler] oracle); the two flags start from their class defaults. *)
Definition __init__ (fade_time : R) : t :=
  mk fade_time None false false.

Definition get_fade (self : t) : M R :=
  if _kill_soon self then
    now <- time_time ;;
    t <- py_sub now (_soft_kill_time self) ;;
    if Rge_dec t (_fade_time self) then ret 0
    else
      q <- py_div t (_fade_time self) ;;
      ret (1 - q)
  else ret 1.

(** The [kill_now] property; reading it may latch [_kill_now]. *)
Definition kill_now (self : t) : M (bool * t) :=
  if _kill_now self then ret (true, self)
  else if _kill_soon self then
    now <- time_time ;;
    t <- py_sub now (_soft_kill_time self) ;;
    let self' :=
      if Rgt_dec t (_fade_time self)
      then mk (_fade_time self) (_soft_kill_time self) true (_kill_soon self)
      else self in
    ret (_kill_now self', self')
  else ret (_kill_now self, self).

(** The [kill_now] setter. *)
Definition set_kill_now (val : bool) (self : t) : M t :=
  if val then
    if _kill_soon self then
      ret (mk (_fade_time self) (_soft_kill_time self) true (_kill_soon self))
    else if Rgt_dec (_fade_time self) 0 then
      now <- time_time ;;
      ret (mk (_fade_time self) (Some now) (_kill_now self) true)
    else
      ret (mk (_fade_time self) (_soft_kill_time self) true (_kill_soon self))
  else
    ret (mk (_fade_time self) None false false).

Definition handle_signal (self : t) : M t := set_kill_now true self.

(** The soft-kill flag is set only with a positive fade time and a recorded
    start time. *)
Definition fade_inv (self : t) : Prop :=
  _kill_soon self = true ->
  0 < _fade_time self /\ _soft_kill_time self <> None.

(** States of a killer that the class's own operations can produce. *)
Inductive reachable : t -> Prop :=
| reach_init fade_time : reachable (__init__ fade_time)
| reach_set self val e c self' c' :
    reachable self ->
    set_kill_now val self e c = (Ok self', c') ->
    reachable self'
| reach_get self e c b self' c' :
    reachable self ->
    kill_now self e c = (Ok (b, self'), c') ->
    reachable self'.

End LoopKiller.

(** ** SoftRealtimeLoop *)

Definition PRECISION_OF_SLEEP : R := 0.0001.

(** The addition that produces a deadline: [time.time() + self.dt] in
    [__iter__] and [run], [self.t1 += self.dt] in [__next__] and
    [self.t1 += dt] in [run].  In the program it is one binary64 addition,
    which rounds its result, so the scheduler is defined over an arbitrary
    addition; [exact_arith] is the idealisation in which it is the addition
    of the reals, and [Binary64] below runs the same updates on binary64
    values. *)
Class DeadlineArith := { deadline_add : R -> R -> R }.

#[export] Instance exact_arith : DeadlineArith := {| deadline_add := Rplus |}.

(** [time.sleep(x)]: its only effect is on later clock readings, which the
    oracle already leaves arbitrary. *)
Definition time_sleep (x : R) : M unit := ret tt.

Definition py_sqrt (x : R) : M R :=
  if Rlt_dec x 0 then raise ValueError else ret (sqrt x).

Module SoftRealtimeLoop.

Record t := mk {
  t0 : R;
  t1 : R;
  killer : LoopKiller.t;
  dt : R;
  ttarg : option R;
  sum_err : R;
  sum_var : R;
  sleep_t_agg : R;
  n : Z;
  report : bool
}.

Definition set_killer (k : LoopKiller.t) (s : t) : t :=
  mk (t0 s) (t1 s) k (dt s) (ttarg s) (sum_err s) (sum_var s)
     (sleep_t_agg s) (n s) (report s).

Definition set_epoch (x : R) (s : t) : t :=
  mk x x (killer s) (dt s) (ttarg s) (sum_err s) (sum_var s)
     (sleep_t_agg s) (n s) (report s).

Definition set_t1 (x : R) (s : t) : t :=
  mk (t0 s) x (killer s) (dt s) (ttarg s) (sum_err s) (sum_var s)
     (sleep_t_agg s) (n s) (report s).

Definition set_sleep_t_agg (x : R) (s : t) : t :=
  mk (t0 s) (t1 s) (killer s) (dt s) (ttarg s) (sum_err s) (sum_var s)
     x (n s) (report s).

Definition set_ttarg (x : R) (s : t) : t :=
  mk (t0 s) (t1 s) (killer s) (dt s) (Some x) (sum_err s) (sum_var s)
     (sleep_t_agg s) (n s) (report s).

Definition add_error (error : R) (s : t) : t :=
  mk (t0 s) (t1 s) (killer s) (dt s) (ttarg s)
     (sum_err s + error) (sum_var s + error ^ 2)
     (sleep_t_agg s) (n s + 1)%Z (report s).

Definition __init__ (dt : R) (report : bool) (fade : R) : M t :=
  now <- time_time ;;
  ret (mk now now (LoopKiller.__init__ fade) dt None 0 0 0 0%Z report).

(** Every read of [self.killer.kill_now] by the loop: a signal that arrived
    meanwhile has run [handle_signal] first. *)
Definition kill_now (self : t) : M (bool * t) :=
  d <- signal_delivered ;;
  k <- (if d : bool then LoopKiller.handle_signal (killer self)
        else ret (killer self)) ;;
  '(b, k') <- LoopKiller.kill_now k ;;
  ret (b, set_killer k' self).

Definition fade (self : t) : M R := LoopKiller.get_fade (killer self).

Definition stop (self : t) : M t :=
  k <- LoopKiller.set_kill_now true (killer self) ;;
  ret (set_killer k self).

Definition time (self : t) : M R :=
  now <- time_time ;; ret (now - t0 self).

Definition time_since (self : t) : M R :=
  now <- time_time ;; ret (now - t1 self).

Definition __iter__ {DA : DeadlineArith} (self : t) : M t :=
  now <- time_time ;;
  ret (set_epoch (deadline_add now (dt self)) self).

(** The coarse wait of [__next__]: sleep while the deadline is more than
    two sleep precisions away. *)
Fixpoint coarse_wait (fuel : nat) (self : t) : M t :=
  match fuel with
  | O => starve
  | S fuel' =>
      now <- time_time ;;
      if Rlt_dec now (t1 self - 2 * PRECISION_OF_SLEEP) then
        '(b, self) <- kill_now self ;;
        if b : bool then ret self
        else
          t_pre_sleep <- time_time ;;
          now' <- time_time ;;
          time_sleep (Rmax PRECISION_OF_SLEEP
                           (t1 self - now' - PRECISION_OF_SLEEP)) ;;;
          now'' <- time_time ;;
          coarse_wait fuel'
            (set_sleep_t_agg (sleep_t_agg self + (now'' - t_pre_sleep)) self)
      else ret self
  end.

(** The busy wait up to the deadline, shared by [__next__] and [run]. *)
Fixpoint busy_wait (fuel : nat) (self : t) : M t :=
  match fuel with
  | O => starve
  | S fuel' =>
      now <- time_time ;;
      if Rlt_dec now (t1 self) then
        '(b, self) <- kill_now self ;;
        if b : bool then ret self
        else
          pending <- sigtimedwait ;;
          self <- (if pending : bool then stop self else ret self) ;;
          busy_wait fuel' self
      else ret self
  end.

(** [__next__]: [None] stands for [StopIteration]; the object keeps the
    state it had when the exception was raised. *)
Definition __next__ {DA : DeadlineArith} (fuel : nat) (self : t)
  : M (option R * t) :=
  '(b, self) <- kill_now self ;;
  if b : bool then ret (None, self)
  else
    self <- coarse_wait fuel self ;;
    self <- busy_wait fuel self ;;
    '(b, self) <- kill_now self ;;
    if b : bool then ret (None, self)
    else
      let self := set_t1 (deadline_add (t1 self) (dt self)) self in
      match ttarg self with
      | None =>
          now <- time_time ;;
          let self := set_ttarg (now + dt self) self in
          ret (Some (t1 self - t0 self), self)
      | Some target =>
          now <- time_time ;;
          let error := now - target in
          let self := add_error error self in
          let self := set_ttarg (target + dt self) self in
          ret (Some (t1 self - t0 self), self)
      end.

(** One pass of the [while] of [run]; [function_in_loop] works on a state
    of its own and reports whether it returned [0]. *)
Definition run_pass {DA : DeadlineArith} {A : Type}
    (function_in_loop : A -> M (bool * A))
    (dt : R) (fuel : nat) (self : t) (a : A) : M (t * A) :=
  '(ret_is_0, a) <- function_in_loop a ;;
  self <- (if ret_is_0 : bool then stop self else ret self) ;;
  self <- busy_wait fuel self ;;
  ret (set_t1 (deadline_add (t1 self) dt) self, a).

(** The [while] of [run]; the count of completed passes is returned with
    the final state. *)
Fixpoint run_loop {DA : DeadlineArith} {A : Type}
    (function_in_loop : A -> M (bool * A))
    (dt : R) (fuel : nat) (passes : nat) (self : t) (a : A)
  : M (nat * t * A) :=
  match fuel with
  | O => starve
  | S fuel' =>
      '(b, self) <- kill_now self ;;
      if b : bool then ret (passes, self, a)
      else
        '(self, a) <- run_pass function_in_loop dt fuel self a ;;
        run_loop function_in_loop dt fuel' (S passes) self a
  end.

Definition run {DA : DeadlineArith} {A : Type}
    (function_in_loop : A -> M (bool * A))
    (dt : option R) (fuel : nat) (self : t) (a : A) : M (nat * t * A) :=
  let dt := match dt with None => SoftRealtimeLoop.dt self | Some d => d end in
  now <- time_time ;;
  run_loop function_in_loop dt fuel 0%nat
    (set_epoch (deadline_add now dt) self) a.

(** The figures printed by [__del__]. *)
Record Report := mkReport {
  cycles : Z;
  rate_hz : R;
  avg_error_ms : R;
  stddev_error_ms : R;
  percent_sleeping : R
}.

Definition __del__ (self : t) : M (option Report) :=
  if report self then
    hz <- py_div 1 (dt self) ;;
    avg <- py_div (1000 * sum_err self) (IZR (n self)) ;;
    m <- py_div (sum_err self ^ 2) (IZR (n self)) ;;
    v <- py_div (sum_var self - m) (IZR (n self - 1)) ;;
    sd <- py_sqrt v ;;
    elapsed <- time self ;;
    frac <- py_div (sleep_t_agg self) elapsed ;;
    ret (Some (mkReport (n self) hz avg (1000 * sd) (frac * 100)))
  else ret None.

End SoftRealtimeLoop.

(** ** The deadline updates on binary64 values *)

(** The three statements that write the deadline, on the binary64 values
    Python floats are: [+] is the rounding addition of the processor. *)
Module Binary64.

Import PrimFloat.
Local Open Scope float_scope.

Definition FREQ : float := 200.
Definition DT : float := 1 / FREQ.

(** [self.t0 = self.t1 = time.time() + self.dt] of [__iter__] (and of
    [run], with its own [dt]): the epoch. *)
Definition __iter__ (now dt : float) : float := now + dt.

(** [self.t1 += self.dt] of [__next__] (and [self.t1 += dt] of [run]). *)
Definition next_deadline (t1 dt : float) : float := t1 + dt.

(** The deadline held once [k] ticks were handed out. *)
Definition deadline_after (t0 dt : float) (k : nat) : float :=
  Nat.iter k (fun t1 => next_deadline t1 dt) t0.

(** The grid point [t0 + k * p] of the closed form. *)
Definition grid_point (t0 p k : float) : float := t0 + k * p.

(** A wall-clock reading in seconds since 1970, and the epoch that
    [__iter__] derives from it for the period [DT]. *)
Definition now_sample : float := 1790000000.
Definition t0_sample : float := __iter__ now_sample DT.

Definition thousand : float := 1000.
Definition tenth_of_ms : float := 1 / 10000.

End Binary64.

(** ** Configuration constants *)

Definition deg2rad (x : R) : R := x * (PI / 180).

Definition FREQ : R := 200.
Definition DT : R := 1 / FREQ.

Definition RW : R := 0.0048.
Definition RK : R := 0.1210.
Definition ALPHA : R := deg2rad 45.

Definition MAX_TILT : R := deg2rad 5.
Definition MAX_BALL_VELOCITY : R := 0.5.

Definition MAX_DUTY : R := 0.8.

Definition THETA_KP : R := 11.0.
Definition THETA_KI : R := 0.0.
Definition THETA_KD : R := 0.1.

(** ** Kinematic matrix *)

Definition J11 : R := -2 * RW / (3 * RK * cos ALPHA).
Definition J12 : R := RW / (3 * RK * cos ALPHA).
Definition J13 : R := J12.
Definition J21 : R := 0.
Definition J22 : R := - sqrt 3 * RW / (3 * RK * cos ALPHA).
Definition J23 : R := -1 * J22.
Definition J31 : R := RW / (3 * RK * sin ALPHA).
Definition J32 : R := J31.
Definition J33 : R := J31.

(** A 3 x 1 column, and a 3 x 3 matrix as its three rows. *)
Record Vec3 := mkVec3 { v0 : R; v1 : R; v2 : R }.
Record Mat3 := mkMat3 { row0 : Vec3; row1 : Vec3; row2 : Vec3 }.

Definition J : Mat3 :=
  mkMat3 (mkVec3 J11 J12 J13) (mkVec3 J21 J22 J23) (mkVec3 J31 J32 J33).

Definition dot (a b : Vec3) : R := v0 a * v0 b + v1 a * v1 b + v2 a * v2 b.

(** [np.matmul] of a 3 x 3 matrix and a 3 x 1 column *)
Definition matmul (m : Mat3) (v : Vec3) : Vec3 :=
  mkVec3 (dot (row0 m) v) (dot (row1 m) v) (dot (row2 m) v).

Definition zeros3 : Vec3 := mkVec3 0 0 0.

Definition vsub (a b : Vec3) : Vec3 :=
  mkVec3 (v0 a - v0 b) (v1 a - v1 b) (v2 a - v2 b).

Definition vdiv (a : Vec3) (d : R) : Vec3 :=
  mkVec3 (v0 a / d) (v1 a / d) (v2 a / d).

(** [np.max(np.abs(v))] *)
Definition max_abs (v : Vec3) : R :=
  Rmax (Rabs (v0 v)) (Rmax (Rabs (v1 v)) (Rabs (v2 v))).

(** ** MoController: the yaw torque set by the gamepad thread *)

Module MoController.

Definition MAX_TZ : R := 0.5.
Definition MAX_ROTATION_TIME : R := 0.75.
Definition COOLDOWN : R := 0.5.

(** [int(self.MAX_ROTATION_TIME/DT)] *)
Definition MAX_ROTATION_ITER : nat :=
  Z.to_nat (Int_part (MAX_ROTATION_TIME / DT)).

(** Values stored in [self.Tz], in order, by [on_R1_press]. *)
Definition on_R1_press : list R :=
  map (fun i => MAX_TZ * sin (INR i)) (seq 0 MAX_ROTATION_ITER).

(** Values stored in [self.Tz], in order, by [on_L1_press]. *)
Definition on_L1_press : list R :=
  map (fun i => -1.0 * MAX_TZ * sin (INR i)) (seq 0 MAX_ROTATION_ITER).

(** Value stored by [__init__], [on_R1_release] and [on_L1_release]. *)
Definition Tz_at_rest : R := 0.0.

(** The values [self.Tz] can hold. *)
Definition Tz_value (x : R) : Prop :=
  x = Tz_at_rest \/ In x on_R1_press \/ In x on_L1_press.

End MoController.

(** ** The PID controllers

    [simple_pid] is a third-party package; the control loop relies on its
    constructor, its [output_limits] property and its call operator.  A
    call samples the package's own clock, so the model passes the reading
    in. *)

Class PIDLib := {
  pid : Type;
  (** [PID(Kp, Ki, Kd, setpoint)], given the clock reading at creation *)
  pid_new : R -> R -> R -> R -> R -> pid;
  (** [p.output_limits = (lo, hi)] *)
  pid_set_output_limits : R -> R -> pid -> pid;
  (** [p(input_)], given the clock reading of the call *)
  pid_call : pid -> R -> R -> R * pid
}.

(** What the package documents about output limits: once set on a new
    controller they stay, and every output lies within them.
    [pid_within lo hi p] says that [p] is such a controller. *)
Class PIDLawful (L : PIDLib) := {
  pid_within : R -> R -> pid -> Prop;
  pid_within_set : forall lo hi Kp Ki Kd setpoint now,
    lo <= hi ->
    pid_within lo hi
      (pid_set_output_limits lo hi (pid_new Kp Ki Kd setpoint now));
  pid_within_call : forall lo hi p now x,
    pid_within lo hi p ->
    pid_within lo hi (snd (pid_call p now x)) /\
    lo <= fst (pid_call p now x) <= hi
}.

(** The update rule of [simple_pid.PID] under its default settings
    (automatic mode, [sample_time = 0.01], proportional term on the error,
    derivative term on the measurement). *)
Module SimplePID.

Record t := mk {
  Kp : R;
  Ki : R;
  Kd : R;
  setpoint : R;
  sample_time : option R;
  _min_output : option R;
  _max_output : option R;
  _proportional : R;
  _integral : R;
  _derivative : R;
  _last_time : R;
  _last_output : option R;
  _last_input : option R
}.

Definition _clamp (value : R) (limits : option R * option R) : R :=
  match snd limits with
  | Some upper =>
      if Rgt_dec value upper then upper
      else match fst limits with
           | Some lower => if Rlt_dec value lower then lower else value
           | None => value
           end
  | None =>
      match fst limits with
      | Some lower => if Rlt_dec value lower then lower else value
      | None => value
      end
  end.

Definition output_limits (self : t) : option R * option R :=
  (_min_output self, _max_output self).

Definition __init__ (Kp Ki Kd setpoint now : R) : t :=
  mk Kp Ki Kd setpoint (Some 0.01) None None 0 0 0 now None None.

(** The [output_limits] setter, for a pair with [lo <= hi]. *)
Definition set_output_limits (lo hi : R) (self : t) : t :=
  let limits := (Some lo, Some hi) in
  mk (Kp self) (Ki self) (Kd self) (setpoint self) (sample_time self)
     (Some lo) (Some hi) (_proportional self)
     (_clamp (_integral self) limits) (_derivative self) (_last_time self)
     (option_map (fun v => _clamp v limits) (_last_output self))
     (_last_input self).

Definition __call__ (self : t) (now input_ : R) : R * t :=
  let dt :=
    if Req_dec_T (now - _last_time self) 0 then 1e-16
    else now - _last_time self in
  let update :=
    let error := setpoint self - input_ in
    let d_input :=
      input_ - match _last_input self with Some v => v | None => input_ end in
    let proportional := Kp self * error in
    let integral :=
      _clamp (_integral self + Ki self * error * dt) (output_limits self) in
    let derivative := - Kd self * d_input / dt in
    let output :=
      _clamp (proportional + integral + derivative) (output_limits self) in
    (output,
     mk (Kp self) (Ki self) (Kd self) (setpoint self) (sample_time self)
        (_min_output self) (_max_output self)
        proportional integral derivative now (Some output) (Some input_)) in
  match sample_time self, _last_output self with
  | Some st, Some last =>
      if Rlt_dec dt st then (last, self) else update
  | _, _ => update
  end.

End SimplePID.

Definition simple_pid : PIDLib := {|
  pid := SimplePID.t;
  pid_new := SimplePID.__init__;
  pid_set_output_limits := SimplePID.set_output_limits;
  pid_call := SimplePID.__call__
|}.

(** ** The control loop of [__main__] *)

Definition Rgtb (x y : R) : bool := if Rgt_dec x y then true else false.

(** The safety-envelope conditional; its value is the [Ty] that reaches the
    mixing equations.  The first two branches are [pass], under the
    comments "Maximum Tilt angle constraint" and "Maximum velocity
    attained, stop torque input"; the last one is [Ty = Ty]. *)
Definition safety_envelope (st : States) (dphi : Vec3) (Ty : R) : R :=
  if Rgtb (Rabs (theta_roll st)) MAX_TILT
     || Rgtb (Rabs (theta_pitch st)) MAX_TILT
  then Ty
  else if Rgtb (max_abs dphi) MAX_BALL_VELOCITY
  then Ty
  else Ty.

(** The three duty assignments; [kill] keeps its value. *)
Definition mix (Tx Ty Tz : R) (commands : Commands) : Commands :=
  mkCommands (kill commands)
    ((-0.3333) * (Tz - (2.8284 * Ty)))
    ((-0.3333) * (Tz + (1.4142 * (Ty + 1.7320 * Tx))))
    ((-0.3333) * (Tz + (1.4142 * (Ty - 1.7320 * Tx)))).

(** The command written after the loop. *)
Definition kill_command (commands : Commands) : Commands :=
  mkCommands 1.0 0.0 0.0 0.0.

(** [ser_dev.get_cur_topic_data(121)[0]] *)
Definition get_cur_topic_data : M SensorRead :=
  fun e c => (Ok (sensor e (sensor_i c)), adv_sensor c).

(** [ser_dev.send_topic_data(101, commands)]: the command reaches the
    interface; a failed write raises. *)
Definition send_topic_data (commands : Commands) : M unit :=
  fun e c =>
    if write_ok e (write_i c) then (Ok tt, adv_write commands c)
    else (Raise WriteFault, adv_write commands c).

(** [mo_controller.Tz] *)
Definition read_Tz : M R :=
  fun e c => (Ok (yaw e (yaw_i c)), adv_yaw c).

Section Main.

Context {L : PIDLib}.

Definition new_pid (Kp Ki Kd setpoint : R) : M pid :=
  fun e c => (Ok (pid_new Kp Ki Kd setpoint (mono e (mono_i c))), adv_mono c).

Definition call_pid (p : pid) (input_ : R) : M (R * pid) :=
  fun e c => (Ok (pid_call p (mono e (mono_i c)) input_), adv_mono c).

(** The variables of [__main__] that the loop reads or writes; the three
    torques are unbound until the first full tick. *)
Record Locals := mkLocals {
  commands : Commands;
  states : States;
  dpsi : Vec3;
  dphi : Vec3;
  prev_dphi : Vec3;
  ddphi : Vec3;
  theta_roll_pid : pid;
  theta_pitch_pid : pid;
  Tx : option R;
  Ty : option R;
  Tz : option R
}.

(** The body of the [for] loop.  The [KeyError] branch is [continue]. *)
Definition loop_body (l : Locals) : M Locals :=
  r <- get_cur_topic_data ;;
  match r with
  | SensorKeyError => ret l
  | SensorData st =>
      let dpsi' := mkVec3 (dpsi_1 st) (dpsi_2 st) (dpsi_3 st) in
      let dphi' := matmul J dpsi' in
      let ddphi' := vdiv (vsub dphi' (prev_dphi l)) DT in
      '(tx, roll_pid) <- call_pid (theta_roll_pid l) (theta_roll st) ;;
      '(ty, pitch_pid) <- call_pid (theta_pitch_pid l) (theta_pitch st) ;;
      tz <- read_Tz ;;
      let ty' := safety_envelope st dphi' ty in
      let commands' := mix tx ty' tz (commands l) in
      send_topic_data commands' ;;;
      ret (mkLocals commands' st dpsi' dphi' dphi' ddphi'
                    roll_pid pitch_pid (Some tx) (Some ty') (Some tz))
  end.

(** [for t in SoftRealtimeLoop(...)]: ask the iterator for the next tick,
    run the body, repeat; [StopIteration] ends the loop. *)
Fixpoint for_loop (fuel : nat) (loop : SoftRealtimeLoop.t) (l : Locals)
  : M (SoftRealtimeLoop.t * Locals) :=
  match fuel with
  | O => starve
  | S fuel' =>
      '(t, loop) <- SoftRealtimeLoop.__next__ fuel loop ;;
      match t with
      | None => ret (loop, l)
      | Some _ =>
          l <- loop_body l ;;
          for_loop fuel' loop l
      end
  end.

Definition zero_states : States := mkStates 0 0 0 0 0.

(** [__main__] from the creation of the local structures up to the loop:
    the first command, with [kill] cleared, and the two controllers. *)
Definition setup : M Locals :=
  let commands0 := mkCommands 0.0 0 0 0 in
  time_sleep 1.0 ;;;
  send_topic_data commands0 ;;;
  roll_pid <- new_pid THETA_KP THETA_KI THETA_KD 0.0 ;;
  pitch_pid <- new_pid THETA_KP THETA_KI THETA_KD 0.0 ;;
  let roll_pid := pid_set_output_limits (- MAX_DUTY) MAX_DUTY roll_pid in
  let pitch_pid := pid_set_output_limits (- MAX_DUTY) MAX_DUTY pitch_pid in
  ret (mkLocals commands0 zero_states zeros3 zeros3 zeros3 zeros3
                roll_pid pitch_pid None None None).

(** The statements after the loop. *)
Definition shutdown (l : Locals) : M Locals :=
  let commands1 := kill_command (commands l) in
  send_topic_data commands1 ;;;
  ret (mkLocals commands1 (states l) (dpsi l) (dphi l) (prev_dphi l) (ddphi l)
                (theta_roll_pid l) (theta_pitch_pid l) (Tx l) (Ty l) (Tz l)).

(** [__main__]; the loop object is returned as the loop left it, which is
    the state its [__del__] reports on. *)
Definition main (fuel : nat) : M (SoftRealtimeLoop.t * Locals) :=
  l <- setup ;;
  loop <- SoftRealtimeLoop.__init__ DT true 0.0 ;;
  loop <- SoftRealtimeLoop.__iter__ loop ;;
  '(loop, l) <- for_loop fuel loop l ;;
  l <- shutdown l ;;
  ret (loop, l).

End Main.

(** ** The tilt display: [compute_dots] *)

Definition N_DOTS : Z := 72.

Definition ARC_START : R := deg2rad 15.
Definition ARC_STOP : R := 2 * PI - deg2rad 15.

Definition ARC : R := ARC_STOP - ARC_START.
Definition ARC_PER_DOT : R := ARC / IZR N_DOTS.

(** [int(x)] of a float: truncation toward zero. *)
Definition py_int (x : R) : Z :=
  if Rle_dec 0 x then Int_part x else (- Int_part (- x))%Z.

(** [np.arange(start, stop)] of two ints *)
Definition arange (start stop : Z) : list Z :=
  map (fun i => (start + Z.of_nat i)%Z) (seq 0 (Z.to_nat (stop - start))).

Definition Rgeb (x y : R) : bool := if Rge_dec x y then true else false.
Definition Rleb (x y : R) : bool := if Rle_dec x y then true else false.

(** The [if]/[elif] chain that binds [dot_position]; [None] when no branch
    is taken and the name stays unbound. *)
Definition dot_position_of (x y slope : R) : option R :=
  if Rgeb y 0 && Rgeb x 0 then Some (PI / 2 - slope)
  else if Rgeb y 0 && Rleb x 0 then Some (3 / 2 * PI - slope)
  else if Rleb y 0 && Rgeb x 0 then Some (PI / 2 - slope)
  else if Rleb y 0 && Rleb x 0 then Some (3 / 2 * PI - slope)
  else None.

(** [compute_dots]; [None] is the [UnboundLocalError] of an unbound
    [dot_position].  The quotient [y/x] is the real one: for [x = 0]
    numpy yields an infinity or a NaN, which this model does not
    describe. *)
Definition compute_dots (roll pitch : R) : option (list Z) :=
  let x := sin roll in
  let y := sin pitch in
  let slope := atan (y / x) in
  match dot_position_of x y slope with
  | None => None
  | Some dot_position =>
      let dot_intensity :=
        (Rabs (sin roll) + Rabs (sin pitch)) / (2 * Rabs (sin MAX_TILT)) in
      let center_dot := py_int ((dot_position - ARC_START) / ARC_PER_DOT) in
      let half_dots := py_int (dot_intensity * IZR N_DOTS / 2) in
      let center_start := (center_dot - half_dots)%Z in
      let center_stop := (center_dot + half_dots + 1)%Z in
      let center_start :=
        if (center_start <? 0)%Z then 0%Z else center_start in
      let center_stop :=
        if (center_stop >? N_DOTS)%Z then N_DOTS else center_stop in
      Some (arange center_start center_stop)
  end.

(** ** Vocabulary of the properties *)

(** An environment whose clocks always read [x], with no signal, no state
    message, a yaw torque at rest and a working serial link. *)
Definition env_const (x : R) : Env :=
  mkEnv (fun _ => x) (fun _ => false) (fun _ => false) (fun _ => x)
        (fun _ => SensorKeyError) (fun _ => 0) (fun _ => true).

(** An environment where each clock reading is one second after the
    previous one, with no signal, no state message, a yaw torque at rest
    and a working serial link. *)
Definition env_ticking : Env :=
  mkEnv INR (fun _ => false) (fun _ => false) INR
        (fun _ => SensorKeyError) (fun _ => 0) (fun _ => true).

(** As [env_ticking], but a termination signal is delivered before every
    poll of the killer. *)
Definition env_cancelled : Env :=
  mkEnv INR (fun _ => false) (fun _ => true) INR
        (fun _ => SensorKeyError) (fun _ => 0) (fun _ => true).

(** The states of the loop object [self] after the iterator protocol
    handed out [k] ticks: [__iter__], then [k] calls of [__next__] that
    returned.  Environment and cursor are arbitrary at every call, so the
    work done between two calls is unconstrained. *)
Inductive after_ticks {DA : DeadlineArith} (self : SoftRealtimeLoop.t)
  : nat -> SoftRealtimeLoop.t -> Prop :=
| ticks_iter e c s c' :
    SoftRealtimeLoop.__iter__ self e c = (Ok s, c') ->
    after_ticks self 0 s
| ticks_next k s fuel e c t s' c' :
    after_ticks self k s ->
    SoftRealtimeLoop.__next__ fuel s e c = (Ok (Some t, s'), c') ->
    after_ticks self (S k) s'.

(** The deadline reached from [t] by [k] additions of the period [d]:
    [((t + d) + d) + ... + d] in the arithmetic [DA]. *)
Definition deadline_after {DA : DeadlineArith} (t d : R) (k : nat) : R :=
  Nat.iter k (fun t1 => deadline_add t1 d) t.

(** What the waits of the loop leave alone: everything but the killer and
    the sleep total. *)
Definition same_grid (s s' : SoftRealtimeLoop.t) : Prop :=
  SoftRealtimeLoop.t0 s' = SoftRealtimeLoop.t0 s /\
  SoftRealtimeLoop.t1 s' = SoftRealtimeLoop.t1 s /\
  SoftRealtimeLoop.dt s' = SoftRealtimeLoop.dt s /\
  SoftRealtimeLoop.ttarg s' = SoftRealtimeLoop.ttarg s /\
  SoftRealtimeLoop.sum_err s' = SoftRealtimeLoop.sum_err s /\
  SoftRealtimeLoop.sum_var s' = SoftRealtimeLoop.sum_var s /\
  SoftRealtimeLoop.n s' = SoftRealtimeLoop.n s /\
  SoftRealtimeLoop.report s' = SoftRealtimeLoop.report s.

(** The largest duty magnitudes the mixing equations can reach from
    torques within their limits. *)
Definition DUTY_1_BOUND : R :=
  0.3333 * (MoController.MAX_TZ + 2.8284 * MAX_DUTY).

Definition DUTY_23_BOUND : R :=
  0.3333 * (MoController.MAX_TZ + 1.4142 * (MAX_DUTY + 1.7320 * MAX_DUTY)).

Definition duties_within (cmd : Commands) : Prop :=
  Rabs (motor_1_duty cmd) <= DUTY_1_BOUND /\
  Rabs (motor_2_duty cmd) <= DUTY_23_BOUND /\
  Rabs (motor_3_duty cmd) <= DUTY_23_BOUND.

(** The outputs the two controllers compute when a tick that starts at
    cursor [c] reads the state message [st]. *)
Definition fresh_Tx {L : PIDLib} (l : Locals) (e : Env) (c : Cursor)
    (st : States) : R :=
  fst (pid_call (theta_roll_pid l) (mono e (mono_i c)) (theta_roll st)).

Definition fresh_Ty {L : PIDLib} (l : Locals) (e : Env) (c : Cursor)
    (st : States) : R :=
  fst (pid_call (theta_pitch_pid l) (mono e (S (mono_i c))) (theta_pitch st)).

(** Both controllers carry the output limits set before the loop. *)
Definition limits_set {L : PIDLib} {HL : PIDLawful L} (l : Locals) : Prop :=
  pid_within (- MAX_DUTY) MAX_DUTY (theta_roll_pid l) /\
  pid_within (- MAX_DUTY) MAX_DUTY (theta_pitch_pid l).

(** A [simple_pid] controller with limits [(lo, hi)] whose held output, if
    any, is within them. *)
Definition simple_pid_within (lo hi : R) (p : SimplePID.t) : Prop :=
  lo <= hi /\
  SimplePID.output_limits p = (Some lo, Some hi) /\
  forall v, SimplePID._last_output p = Some v -> lo <= v <= hi.

(** Every yaw torque the environment supplies is within [MAX_TZ]. *)
Definition yaw_bounded (e : Env) : Prop :=
  forall i, Rabs (yaw e i) <= MoController.MAX_TZ.

(** A computation that writes nothing to the serial interface. *)
Definition keeps_sent {A : Type} (m : M A) : Prop :=
  forall e c r c', m e c = (r, c') -> sent c' = sent c.

(** Under environment [e], a computation started with only in-bound
    commands written ends, however it ends, with only in-bound commands
    written, and a value it returns satisfies [Q]. *)
Definition sends_within (e : Env) {A : Type} (m : M A) (Q : A -> Prop)
  : Prop :=
  forall c r c',
    Forall duties_within (sent c) ->
    m e c = (r, c') ->
    Forall duties_within (sent c') /\ forall a, r = Ok a -> Q a.

(** A [simple_pid] controller as [__main__] configures it, last updated at
    [last_time] from input [last_input], with nothing integrated. *)
Definition app_pid (p : SimplePID.t) (last_time : R) (last_input : option R)
  : Prop :=
  SimplePID.Kp p = THETA_KP /\
  SimplePID.Ki p = THETA_KI /\
  SimplePID.Kd p = THETA_KD /\
  SimplePID.setpoint p = 0.0 /\
  SimplePID.sample_time p = Some 0.01 /\
  SimplePID.output_limits p = (Some (- MAX_DUTY), Some MAX_DUTY) /\
  SimplePID._integral p = 0 /\
  SimplePID._last_time p = last_time /\
  SimplePID._last_input p = last_input.

(** As [env_ticking], with the robot leaning by 0.08 rad on both axes,
    inside the tilt limit. *)
Definition env_leaning : Env :=
  mkEnv INR (fun _ => false) (fun _ => false) INR
        (fun _ => SensorData (mkStates (-0.08) (-0.08) 0 0 0))
        (fun _ => 0) (fun _ => true).

(** As [env_ticking], with a first state message inside the tilt limit and
    later ones with the roll angle at 1.1 times the limit. *)
Definition env_tilting : Env :=
  mkEnv INR (fun _ => false) (fun _ => false) INR
        (fun i => match i with
                  | O => SensorData (mkStates 0 0.1 0 0 0)
                  | S _ => SensorData (mkStates (1.1 * MAX_TILT) (-0.1) 0 0 0)
                  end)
        (fun _ => 0) (fun _ => true).

(** As [env_ticking], with a pitch of 0.05 rad, and a serial link that
    works for the first write only. *)
Definition env_write_fault : Env :=
  mkEnv INR (fun _ => false) (fun _ => false) INR
        (fun _ => SensorData (mkStates 0 0.05 0 0 0))
        (fun _ => 0)
        (fun i => match i with O => true | S _ => false end).

(** The variables of [__main__] as the loop first finds them, with two
    [simple_pid] controllers created at clock reading 0. *)
Definition locals0 : @Locals simple_pid :=
  let p := SimplePID.set_output_limits (- MAX_DUTY) MAX_DUTY
             (SimplePID.__init__ THETA_KP THETA_KI THETA_KD 0.0 0) in
  @mkLocals simple_pid (mkCommands 0.0 0 0 0) zero_states zeros3 zeros3
            zeros3 zeros3 p p None None None.

(** A loop object whose jitter statistics have not started. *)
Definition fresh_stats (s : SoftRealtimeLoop.t) : Prop :=
  SoftRealtimeLoop.ttarg s = None /\
  SoftRealtimeLoop.n s = 0%Z /\
  SoftRealtimeLoop.sum_err s = 0 /\
  SoftRealtimeLoop.sum_var s = 0.

(** The sums are those of [n] samples: the sum of squares dominates the
    squared sum divided by [n]. *)
Definition stats_inv (s : SoftRealtimeLoop.t) : Prop :=
  (0 <= SoftRealtimeLoop.n s)%Z /\
  0 <= SoftRealtimeLoop.sum_var s /\
  SoftRealtimeLoop.sum_err s ^ 2
    <= IZR (SoftRealtimeLoop.n s) * SoftRealtimeLoop.sum_var s.

(** A computation that never rewinds the position in the clock oracle. *)
Definition clock_grows {A : Type} (m : M A) : Prop :=
  forall e c r c', m e c = (r, c') -> (clock_i c <= clock_i c')%nat.

(** A loop object as [SoftRealtimeLoop(dt=DT, report=True)] creates it at
    clock reading 0. *)
Definition loop0 : SoftRealtimeLoop.t :=
  SoftRealtimeLoop.mk 0 0 (LoopKiller.__init__ 0.0) DT None 0 0 0 0%Z true.

(** A computation that, however it ends, has passed to the serial
    interface only commands satisfying [P] beyond those already written,
    and whose value, if it returns one, satisfies [Q]. *)
Definition appends (P : Commands -> Prop) {A : Type} (m : M A)
    (Q : A -> Prop) : Prop :=
  forall e c r c',
    m e c = (r, c') ->
    exists l, sent c' = sent c ++ l /\ Forall P l /\ forall a, r = Ok a -> Q a.


(** An environment whose sensor gives a state message, then none, then a
    second state message. *)
Definition env_gap : Env :=
  mkEnv INR (fun _ => false) (fun _ => false) INR
        (fun i => match i with
                  | O => SensorData (mkStates 0 0 1 2 3)
                  | S O => SensorKeyError
                  | S (S _) => SensorData (mkStates 0 0 4 4 4)
                  end)
        (fun _ => 0) (fun _ => true).

(** A wall clock that never runs backwards. *)
Definition clock_monotone (e : Env) : Prop :=
  forall i j, (i <= j)%nat -> clock e i <= clock e j.

(** * Properties *)

(** Unfold the monadic primitives of a short computation. *)
Ltac run_m :=
  unfold bind, ret, raise, time_time, py_sub, py_div; simpl.

(** ** LoopKiller *)

Lemma get_fade_idle (k : LoopKiller.t) e c :
  LoopKiller._kill_soon k = false -> LoopKiller.get_fade k e c = (Ok 1, c).
Proof.
  intros H. unfold LoopKiller.get_fade. rewrite H. reflexivity.
Qed.

Lemma get_fade_fading (k : LoopKiller.t) e c (start : R) :
  LoopKiller._kill_soon k = true ->
  LoopKiller._soft_kill_time k = Some start ->
  0 < LoopKiller._fade_time k ->
  LoopKiller.get_fade k e c =
    (Ok (if Rge_dec (clock e (clock_i c) - start) (LoopKiller._fade_time k)
         then 0
         else 1 - (clock e (clock_i c) - start) / LoopKiller._fade_time k),
     adv_clock c).
Proof.
  intros Hs Ht HF. unfold LoopKiller.get_fade. rewrite Hs.
  run_m. rewrite Ht. simpl.
  destruct (Rge_dec _ _); [reflexivity|].
  unfold py_div, bind. destruct (Req_dec_T _ _); [lra|reflexivity].
Qed.

Lemma request_on_fresh (F : R) e c :
  0 < F ->
  LoopKiller.handle_signal (LoopKiller.__init__ F) e c =
    (Ok (LoopKiller.mk F (Some (clock e (clock_i c))) false true),
     adv_clock c).
Proof.
  intros HF. unfold LoopKiller.handle_signal, LoopKiller.set_kill_now.
  simpl. destruct (Rgt_dec F 0); [reflexivity|lra].
Qed.

(** C5: [get_fade] is 1.0 as long as no cancellation was requested (on a
    new killer, and in any state whose soft-kill flag is clear); after a
    soft-cancel request at time [t_req] with fade duration [F > 0] it is
    1.0 at the moment of the request, [1 - t/F] at elapsed time [t < F] and
    0.0 from [t = F] on. *)
Theorem C5_fade_multiplier_shape :
  (forall F e c,
     LoopKiller.get_fade (LoopKiller.__init__ F) e c = (Ok 1, c)) /\
  (forall k e c,
     LoopKiller._kill_soon k = false ->
     LoopKiller.get_fade k e c = (Ok 1, c)) /\
  (forall F e c,
     0 < F ->
     exists k c',
       LoopKiller.handle_signal (LoopKiller.__init__ F) e c = (Ok k, c') /\
       let t_req := clock e (clock_i c) in
       forall e1 c1,
         let t := clock e1 (clock_i c1) - t_req in
         (t = 0 -> LoopKiller.get_fade k e1 c1 = (Ok 1, adv_clock c1)) /\
         (t < F ->
          LoopKiller.get_fade k e1 c1 = (Ok (1 - t / F), adv_clock c1)) /\
         (F <= t -> LoopKiller.get_fade k e1 c1 = (Ok 0, adv_clock c1))).
Proof.
  split; [intros F e c; apply get_fade_idle; reflexivity|].
  split; [exact get_fade_idle|].
  intros F e c HF. eexists. eexists. split.
  - apply request_on_fresh. exact HF.
  - intros t_req e1 c1 t. subst t t_req.
    rewrite (get_fade_fading _ e1 c1 (clock e (clock_i c)));
      [| reflexivity | reflexivity | exact HF].
    simpl. repeat split; intros Ht.
    + destruct (Rge_dec _ _); [lra|]. rewrite Ht.
      do 2 f_equal. field. lra.
    + destruct (Rge_dec _ _); [lra|reflexivity].
    + destruct (Rge_dec _ _); [reflexivity|lra].
Qed.

Lemma C5_fade_multiplier_shape_witness :
  exists k c',
    LoopKiller.handle_signal (LoopKiller.__init__ 2) (env_const 5) cursor0
      = (Ok k, c') /\
    LoopKiller.get_fade k (env_const 6) cursor0
      = (Ok (1 - (6 - 5) / 2), adv_clock cursor0).
Proof.
  destruct (proj2 (proj2 C5_fade_multiplier_shape) 2 (env_const 5) cursor0)
    as [k [c' [H1 H2]]]; [lra|].
  exists k, c'. split; [exact H1|].
  apply (H2 (env_const 6) cursor0). simpl. lra.
Defined.

(** C6: with fade duration 0 a second cancellation request leaves the
    killer exactly as the first one did, stopped at once; while a fade is
    active (positive fade duration, a first request made) a second request
    sets the immediate-kill flag, and the next read of [kill_now] is true
    whatever the clock says. *)
Theorem C6_repeated_cancellation (k : LoopKiller.t) :
  (LoopKiller._fade_time k = 0 ->
   forall e c, exists k1,
     LoopKiller.set_kill_now true k e c = (Ok k1, c) /\
     LoopKiller._kill_now k1 = true /\
     (forall e1 c1, LoopKiller.set_kill_now true k1 e1 c1 = (Ok k1, c1)) /\
     (forall e1 c1, LoopKiller.kill_now k1 e1 c1 = (Ok (true, k1), c1))) /\
  (0 < LoopKiller._fade_time k -> LoopKiller._kill_soon k = true ->
   forall e c, exists k2,
     LoopKiller.set_kill_now true k e c = (Ok k2, c) /\
     LoopKiller._kill_now k2 = true /\
     (forall e1 c1, LoopKiller.kill_now k2 e1 c1 = (Ok (true, k2), c1))).
Proof.
  split.
  - intros HF e c. unfold LoopKiller.set_kill_now.
    destruct k as [F st kn ks]; simpl in *. subst F.
    destruct ks; simpl.
    + eexists; split; [reflexivity|]. simpl. repeat split.
    + destruct (Rgt_dec 0 0); [lra|].
      eexists; split; [reflexivity|]. simpl. repeat split.
      intros e1 c1. destruct (Rgt_dec 0 0); [lra|reflexivity].
  - intros HF Hs e c. unfold LoopKiller.set_kill_now. rewrite Hs.
    eexists; split; [reflexivity|]. simpl. repeat split.
Qed.

Lemma C6_repeated_cancellation_witness :
  exists k1,
    LoopKiller.set_kill_now true (LoopKiller.__init__ 0) (env_const 5) cursor0
      = (Ok k1, cursor0) /\
    LoopKiller._kill_now k1 = true.
Proof.
  destruct (proj1 (C6_repeated_cancellation (LoopKiller.__init__ 0))
              eq_refl (env_const 5) cursor0) as [k1 [H1 [H2 _]]].
  exists k1. split; assumption.
Defined.

Lemma fade_inv_init (F : R) : LoopKiller.fade_inv (LoopKiller.__init__ F).
Proof. unfold LoopKiller.fade_inv. simpl. discriminate. Qed.

Lemma fade_inv_set (k : LoopKiller.t) val e c k' c' :
  LoopKiller.fade_inv k ->
  LoopKiller.set_kill_now val k e c = (Ok k', c') ->
  LoopKiller.fade_inv k'.
Proof.
  unfold LoopKiller.fade_inv, LoopKiller.set_kill_now.
  intros Hinv H. destruct val.
  - destruct (LoopKiller._kill_soon k) eqn:Hs.
    + inversion H; subst; simpl. intros _. apply Hinv. reflexivity.
    + destruct (Rgt_dec (LoopKiller._fade_time k) 0).
      * inversion H; subst; simpl. intros _. split; [lra|discriminate].
      * inversion H; subst; simpl. discriminate.
  - inversion H; subst; simpl. discriminate.
Qed.

Lemma fade_inv_get (k : LoopKiller.t) e c b k' c' :
  LoopKiller.fade_inv k ->
  LoopKiller.kill_now k e c = (Ok (b, k'), c') ->
  LoopKiller.fade_inv k'.
Proof.
  unfold LoopKiller.fade_inv, LoopKiller.kill_now.
  intros Hinv H. destruct (LoopKiller._kill_now k).
  - inversion H; subst. exact Hinv.
  - destruct (LoopKiller._kill_soon k) eqn:Hs.
    + destruct (Hinv eq_refl) as [HF Ht].
      destruct (LoopKiller._soft_kill_time k) as [st|] eqn:Hst;
        [|congruence].
      revert H. run_m.
      destruct (Rgt_dec _ _); intros H; inversion H; subst; simpl;
        intros _; split; try assumption; rewrite ?Hst; discriminate.
    + inversion H; subst. rewrite Hs. discriminate.
Qed.

Lemma reachable_fade_inv (k : LoopKiller.t) :
  LoopKiller.reachable k -> LoopKiller.fade_inv k.
Proof.
  induction 1.
  - apply fade_inv_init.
  - eapply fade_inv_set; eassumption.
  - eapply fade_inv_get; eassumption.
Qed.

Lemma get_fade_total (k : LoopKiller.t) e c :
  LoopKiller.fade_inv k ->
  exists r c', LoopKiller.get_fade k e c = (Ok r, c').
Proof.
  intros Hinv. destruct (LoopKiller._kill_soon k) eqn:Hs.
  - destruct (Hinv Hs) as [HF Ht].
    destruct (LoopKiller._soft_kill_time k) as [st|] eqn:Hst; [|congruence].
    eexists. eexists. apply (get_fade_fading k e c st); assumption.
  - exists 1, c. apply get_fade_idle. exact Hs.
Qed.

(** C10: the fade invariant (soft-kill flag set only with a positive fade
    time and a recorded start time) holds initially and is preserved by
    the setter and the getter of [kill_now]; so in every reachable state
    [get_fade] returns a value: the subtraction finds a start time and the
    division by [_fade_time] has a nonzero divisor. *)
Theorem C10_fade_state_invariant :
  (forall F, LoopKiller.fade_inv (LoopKiller.__init__ F)) /\
  (forall k val e c k' c',
     LoopKiller.fade_inv k ->
     LoopKiller.set_kill_now val k e c = (Ok k', c') ->
     LoopKiller.fade_inv k') /\
  (forall k e c b k' c',
     LoopKiller.fade_inv k ->
     LoopKiller.kill_now k e c = (Ok (b, k'), c') ->
     LoopKiller.fade_inv k') /\
  (forall k, LoopKiller.reachable k ->
     LoopKiller.fade_inv k /\
     forall e c, exists r c', LoopKiller.get_fade k e c = (Ok r, c')).
Proof.
  split; [exact fade_inv_init|].
  split; [exact fade_inv_set|].
  split; [exact fade_inv_get|].
  intros k Hr. pose proof (reachable_fade_inv k Hr) as Hinv.
  split; [exact Hinv|].
  intros e c. apply get_fade_total. exact Hinv.
Qed.

(** ** SoftRealtimeLoop *)

Lemma bind_Ok {A B} (m : M A) (f : A -> M B) e c b c' :
  bind m f e c = (Ok b, c') ->
  exists a c1, m e c = (Ok a, c1) /\ f a e c1 = (Ok b, c').
Proof.
  unfold bind. destruct (m e c) as [[a| |] c1]; intros H;
    try discriminate. exists a, c1. split; [reflexivity|exact H].
Qed.

Ltac inv_bind H :=
  let a := fresh "a" in
  let c1 := fresh "c" in
  let H1 := fresh "Hm" in
  apply bind_Ok in H; destruct H as [a [c1 [H1 H]]].

Ltac inv_ret H :=
  unfold ret in H; inversion H; subst; clear H.

Lemma same_grid_refl s : same_grid s s.
Proof. unfold same_grid. repeat split. Qed.

Lemma same_grid_trans s1 s2 s3 :
  same_grid s1 s2 -> same_grid s2 s3 -> same_grid s1 s3.
Proof.
  unfold same_grid. intros H1 H2.
  decompose [and] H1. decompose [and] H2.
  repeat split; congruence.
Qed.

Lemma same_grid_set_killer k s : same_grid s (SoftRealtimeLoop.set_killer k s).
Proof. unfold same_grid. simpl. repeat split. Qed.

Lemma same_grid_set_sleep x s :
  same_grid s (SoftRealtimeLoop.set_sleep_t_agg x s).
Proof. unfold same_grid. simpl. repeat split. Qed.

Lemma kill_now_grid s e c b s' c' :
  SoftRealtimeLoop.kill_now s e c = (Ok (b, s'), c') -> same_grid s s'.
Proof.
  unfold SoftRealtimeLoop.kill_now. intros H.
  inv_bind H. inv_bind H. inv_bind H. destruct a1 as [b1 k1].
  inv_ret H. apply same_grid_set_killer.
Qed.

Lemma stop_grid s e c s' c' :
  SoftRealtimeLoop.stop s e c = (Ok s', c') -> same_grid s s'.
Proof.
  unfold SoftRealtimeLoop.stop. intros H.
  inv_bind H. inv_ret H. apply same_grid_set_killer.
Qed.

Lemma coarse_wait_grid fuel : forall s e c s' c',
  SoftRealtimeLoop.coarse_wait fuel s e c = (Ok s', c') -> same_grid s s'.
Proof.
  induction fuel as [|fuel IH]; intros s e c s' c' H; simpl in H.
  - discriminate.
  - inv_bind H. destruct (Rlt_dec _ _).
    + inv_bind H. destruct a0 as [b s1].
      apply kill_now_grid in Hm0. destruct b.
      * inv_ret H. exact Hm0.
      * inv_bind H. inv_bind H. inv_bind H. inv_bind H.
        apply IH in H.
        eapply same_grid_trans; [exact Hm0|].
        eapply same_grid_trans; [apply same_grid_set_sleep|exact H].
    + inv_ret H. apply same_grid_refl.
Qed.

Lemma busy_wait_grid fuel : forall s e c s' c',
  SoftRealtimeLoop.busy_wait fuel s e c = (Ok s', c') -> same_grid s s'.
Proof.
  induction fuel as [|fuel IH]; intros s e c s' c' H; simpl in H.
  - discriminate.
  - inv_bind H. destruct (Rlt_dec _ _).
    + inv_bind H. destruct a0 as [b s1].
      apply kill_now_grid in Hm0. destruct b.
      * inv_ret H. exact Hm0.
      * inv_bind H. inv_bind H. apply IH in H.
        eapply same_grid_trans; [exact Hm0|].
        eapply same_grid_trans; [|exact H].
        destruct a0.
        -- eapply stop_grid. exact Hm2.
        -- inv_ret Hm2. apply same_grid_refl.
    + inv_ret H. apply same_grid_refl.
Qed.

(** A call of [__next__] that hands out a tick moved the deadline by one
    period and nothing else of the grid; the value it returns is the new
    deadline relative to the epoch. *)
Lemma next_tick_grid fuel s e c t s' c' :
  SoftRealtimeLoop.__next__ fuel s e c = (Ok (Some t, s'), c') ->
  SoftRealtimeLoop.t1 s' = SoftRealtimeLoop.t1 s + SoftRealtimeLoop.dt s /\
  SoftRealtimeLoop.t0 s' = SoftRealtimeLoop.t0 s /\
  SoftRealtimeLoop.dt s' = SoftRealtimeLoop.dt s /\
  t = SoftRealtimeLoop.t1 s' - SoftRealtimeLoop.t0 s'.
Proof.
  unfold SoftRealtimeLoop.__next__. intros H.
  inv_bind H. destruct a as [b s1]. apply kill_now_grid in Hm.
  destruct b; [inv_ret H|].
  inv_bind H. apply coarse_wait_grid in Hm0.
  inv_bind H. apply busy_wait_grid in Hm1.
  inv_bind H. destruct a1 as [b s4]. apply kill_now_grid in Hm2.
  destruct b; [inv_ret H|].
  pose proof (same_grid_trans _ _ _ Hm
               (same_grid_trans _ _ _ Hm0
                 (same_grid_trans _ _ _ Hm1 Hm2))) as G.
  destruct G as [G0 [G1 [Gd _]]].
  simpl in H. destruct (SoftRealtimeLoop.ttarg s4);
    inv_bind H; inv_ret H; simpl; rewrite G0, G1, Gd; repeat split.
Qed.

(** A call of [__next__] that raises [StopIteration] left the grid and the
    statistics as they were. *)
Lemma next_stop_grid fuel s e c s' c' :
  SoftRealtimeLoop.__next__ fuel s e c = (Ok (None, s'), c') ->
  same_grid s s'.
Proof.
  unfold SoftRealtimeLoop.__next__. intros H.
  inv_bind H. destruct a as [b s1]. apply kill_now_grid in Hm.
  destruct b; [inv_ret H; exact Hm|].
  inv_bind H. apply coarse_wait_grid in Hm0.
  inv_bind H. apply busy_wait_grid in Hm1.
  inv_bind H. destruct a1 as [b s4]. apply kill_now_grid in Hm2.
  destruct b.
  - inv_ret H.
    exact (same_grid_trans _ _ _ Hm
             (same_grid_trans _ _ _ Hm0
               (same_grid_trans _ _ _ Hm1 Hm2))).
  - simpl in H. destruct (SoftRealtimeLoop.ttarg s4);
      inv_bind H; inv_ret H.
Qed.

Lemma after_ticks_grid self k s :
  after_ticks self k s ->
  SoftRealtimeLoop.t1 s =
    SoftRealtimeLoop.t0 s + INR k * SoftRealtimeLoop.dt s.
Proof.
  induction 1 as [e c s c' H | k s fuel e c t s' c' Hk IH H].
  - unfold SoftRealtimeLoop.__iter__ in H. inv_bind H. inv_ret H.
    simpl. lra.
  - apply next_tick_grid in H. destruct H as [H1 [H0 [Hd _]]].
    rewrite S_INR, H1, H0, Hd, IH. lra.
Qed.

Lemma run_pass_grid {A} (f : A -> M (bool * A)) d fuel s a e c s' a' c' :
  SoftRealtimeLoop.run_pass f d fuel s a e c = (Ok (s', a'), c') ->
  SoftRealtimeLoop.t1 s' = SoftRealtimeLoop.t1 s + d /\
  SoftRealtimeLoop.t0 s' = SoftRealtimeLoop.t0 s.
Proof.
  unfold SoftRealtimeLoop.run_pass. intros H.
  inv_bind H. destruct a0 as [z a1].
  inv_bind H. inv_bind H. inv_ret H. simpl.
  apply busy_wait_grid in Hm1. destruct Hm1 as [G0 [G1 _]].
  assert (G : same_grid s a0).
  { destruct z; [eapply stop_grid; exact Hm0|].
    inv_ret Hm0. apply same_grid_refl. }
  destruct G as [K0 [K1 _]]. split; congruence.
Qed.

Lemma run_loop_grid {A} (f : A -> M (bool * A)) d fuel :
  forall passes s a e c passes' s' a' c',
    SoftRealtimeLoop.run_loop f d fuel passes s a e c
      = (Ok (passes', s', a'), c') ->
    (passes <= passes')%nat /\
    SoftRealtimeLoop.t1 s' - INR passes' * d
      = SoftRealtimeLoop.t1 s - INR passes * d /\
    SoftRealtimeLoop.t0 s' = SoftRealtimeLoop.t0 s.
Proof.
  induction fuel as [|fuel IH]; intros passes s a e c passes' s' a' c' H;
    simpl in H.
  - discriminate.
  - inv_bind H. destruct a0 as [b s1].
    apply kill_now_grid in Hm. destruct Hm as [G0 [G1 _]].
    destruct b.
    + inv_ret H. repeat split; [lia|lra|assumption].
    + inv_bind H. destruct a0 as [s2 a2].
      apply run_pass_grid in Hm. destruct Hm as [P1 P0].
      apply IH in H. destruct H as [Hle [H1 H0]].
      repeat split; [lia| |congruence].
      rewrite H1, S_INR, P1, G1. lra.
Qed.

Lemma run_grid {A} (f : A -> M (bool * A)) p fuel s a e c passes s' a' c' :
  SoftRealtimeLoop.run f p fuel s a e c = (Ok (passes, s', a'), c') ->
  SoftRealtimeLoop.t1 s' =
    SoftRealtimeLoop.t0 s'
    + INR passes * match p with
                   | None => SoftRealtimeLoop.dt s
                   | Some d => d
                   end.
Proof.
  unfold SoftRealtimeLoop.run. intros H. inv_bind H.
  apply run_loop_grid in H. destruct H as [_ [H1 H0]]. simpl in H1, H0.
  rewrite H0. lra.
Qed.

(** The same facts for an arbitrary deadline addition. *)

Lemma next_tick_advance {DA : DeadlineArith} fuel s e c t s' c' :
  SoftRealtimeLoop.__next__ fuel s e c = (Ok (Some t, s'), c') ->
  SoftRealtimeLoop.t1 s'
    = deadline_add (SoftRealtimeLoop.t1 s) (SoftRealtimeLoop.dt s) /\
  SoftRealtimeLoop.t0 s' = SoftRealtimeLoop.t0 s /\
  SoftRealtimeLoop.dt s' = SoftRealtimeLoop.dt s /\
  t = SoftRealtimeLoop.t1 s' - SoftRealtimeLoop.t0 s'.
Proof.
  unfold SoftRealtimeLoop.__next__. intros H.
  inv_bind H. destruct a as [b s1]. apply kill_now_grid in Hm.
  destruct b; [inv_ret H|].
  inv_bind H. apply coarse_wait_grid in Hm0.
  inv_bind H. apply busy_wait_grid in Hm1.
  inv_bind H. destruct a1 as [b s4]. apply kill_now_grid in Hm2.
  destruct b; [inv_ret H|].
  pose proof (same_grid_trans _ _ _ Hm
               (same_grid_trans _ _ _ Hm0
                 (same_grid_trans _ _ _ Hm1 Hm2))) as G.
  destruct G as [G0 [G1 [Gd _]]].
  simpl in H. destruct (SoftRealtimeLoop.ttarg s4);
    inv_bind H; inv_ret H; simpl; rewrite G0, G1, Gd; repeat split.
Qed.

Lemma after_ticks_advance {DA : DeadlineArith} self k s :
  after_ticks self k s ->
  SoftRealtimeLoop.t1 s
    = deadline_after (SoftRealtimeLoop.t0 s) (SoftRealtimeLoop.dt s) k.
Proof.
  induction 1 as [e c s c' H | k s fuel e c t s' c' Hk IH H].
  - unfold SoftRealtimeLoop.__iter__ in H. inv_bind H. inv_ret H.
    reflexivity.
  - apply next_tick_advance in H. destruct H as [H1 [H0 [Hd _]]].
    rewrite H1, H0, Hd, IH. reflexivity.
Qed.

Lemma run_pass_advance {DA : DeadlineArith} {A} (f : A -> M (bool * A))
    d fuel s a e c s' a' c' :
  SoftRealtimeLoop.run_pass f d fuel s a e c = (Ok (s', a'), c') ->
  SoftRealtimeLoop.t1 s' = deadline_add (SoftRealtimeLoop.t1 s) d /\
  SoftRealtimeLoop.t0 s' = SoftRealtimeLoop.t0 s.
Proof.
  unfold SoftRealtimeLoop.run_pass. intros H.
  inv_bind H. destruct a0 as [z a1].
  inv_bind H. inv_bind H. inv_ret H. simpl.
  apply busy_wait_grid in Hm1. destruct Hm1 as [G0 [G1 _]].
  assert (G : same_grid s a0).
  { destruct z; [eapply stop_grid; exact Hm0|].
    inv_ret Hm0. apply same_grid_refl. }
  destruct G as [K0 [K1 _]]. split; congruence.
Qed.

Lemma run_loop_advance {DA : DeadlineArith} {A} (f : A -> M (bool * A))
    d fuel :
  forall passes s a e c passes' s' a' c',
    SoftRealtimeLoop.run_loop f d fuel passes s a e c
      = (Ok (passes', s', a'), c') ->
    exists j,
      passes' = (passes + j)%nat /\
      SoftRealtimeLoop.t1 s' = deadline_after (SoftRealtimeLoop.t1 s) d j /\
      SoftRealtimeLoop.t0 s' = SoftRealtimeLoop.t0 s.
Proof.
  induction fuel as [|fuel IH]; intros passes s a e c passes' s' a' c' H;
    simpl in H.
  - discriminate.
  - inv_bind H. destruct a0 as [b s1].
    apply kill_now_grid in Hm. destruct Hm as [G0 [G1 _]].
    destruct b.
    + inv_ret H. exists 0%nat. repeat split; [lia|assumption|assumption].
    + inv_bind H. destruct a0 as [s2 a2].
      apply run_pass_advance in Hm. destruct Hm as [P1 P0].
      apply IH in H. destruct H as [j [Hj [H1 H0]]].
      exists (S j). repeat split; [lia| |congruence].
      rewrite H1, P1, G1. unfold deadline_after.
      symmetry.
      exact (Nat.iter_succ_r j R (fun t1 => deadline_add t1 d)
                             (SoftRealtimeLoop.t1 s)).
Qed.

Lemma run_advance {DA : DeadlineArith} {A} (f : A -> M (bool * A))
    p fuel s a e c passes s' a' c' :
  SoftRealtimeLoop.run f p fuel s a e c = (Ok (passes, s', a'), c') ->
  SoftRealtimeLoop.t1 s' =
    deadline_after (SoftRealtimeLoop.t0 s')
      match p with
      | None => SoftRealtimeLoop.dt s
      | Some d => d
      end passes.
Proof.
  unfold SoftRealtimeLoop.run. intros H. inv_bind H.
  apply run_loop_advance in H. destruct H as [j [Hj [H1 H0]]].
  simpl in Hj, H1, H0. subst j. rewrite H1, H0. reflexivity.
Qed.

Lemma deadline_after_exact t d k :
  deadline_after (DA := exact_arith) t d k = t + INR k * d.
Proof.
  change (Nat.iter k (fun t1 => t1 + d) t = t + INR k * d).
  induction k as [|k IH].
  - simpl. lra.
  - rewrite S_INR.
    change (Nat.iter k (fun t1 => t1 + d) t + d = t + (INR k + 1) * d).
    rewrite IH. lra.
Qed.

(** C3 (as the code has it): the deadline is never re-based on a wake or
    completion time.  Whatever the clock reads and whatever happens
    between the calls, a call of [__next__] that hands out a tick replaces
    the deadline by the sum of the previous deadline and the period, one
    addition in the arithmetic of the machine, and leaves the epoch and the
    period alone; so the deadline held after [k] ticks is the [k]-fold sum
    [((t0 + dt) + dt) + ... + dt], a function of the epoch, the period and
    [k] alone, and two runs with the same epoch and period hold the same
    deadline after [k] ticks; [run] accumulates its deadline the same way.
    When the additions are exact the sum is [t0 + k * dt]; the binary64
    additions of the program round, and there the sum leaves that value. *)
Theorem C3_deadline_grid (DA : DeadlineArith) :
  (forall fuel s e c t s' c',
     SoftRealtimeLoop.__next__ fuel s e c = (Ok (Some t, s'), c') ->
     SoftRealtimeLoop.t1 s'
       = deadline_add (SoftRealtimeLoop.t1 s) (SoftRealtimeLoop.dt s) /\
     SoftRealtimeLoop.t0 s' = SoftRealtimeLoop.t0 s /\
     SoftRealtimeLoop.dt s' = SoftRealtimeLoop.dt s /\
     t = SoftRealtimeLoop.t1 s' - SoftRealtimeLoop.t0 s') /\
  (forall self k s,
     after_ticks self k s ->
     SoftRealtimeLoop.t1 s
       = deadline_after (SoftRealtimeLoop.t0 s) (SoftRealtimeLoop.dt s) k) /\
  (forall self1 self2 k s1 s2,
     after_ticks self1 k s1 ->
     after_ticks self2 k s2 ->
     SoftRealtimeLoop.t0 s1 = SoftRealtimeLoop.t0 s2 ->
     SoftRealtimeLoop.dt s1 = SoftRealtimeLoop.dt s2 ->
     SoftRealtimeLoop.t1 s1 = SoftRealtimeLoop.t1 s2) /\
  (forall (A : Type) (f : A -> M (bool * A)) p fuel s a e c passes s' a' c',
     SoftRealtimeLoop.run f p fuel s a e c = (Ok (passes, s', a'), c') ->
     SoftRealtimeLoop.t1 s' =
       deadline_after (SoftRealtimeLoop.t0 s')
         match p with
         | None => SoftRealtimeLoop.dt s
         | Some d => d
         end passes) /\
  (forall t d k, deadline_after (DA := exact_arith) t d k = t + INR k * d).
Proof.
  split; [exact next_tick_advance|].
  split; [exact after_ticks_advance|].
  split.
  { intros self1 self2 k s1 s2 H1 H2 E0 Ed.
    rewrite (after_ticks_advance _ _ _ H1), (after_ticks_advance _ _ _ H2).
    rewrite E0, Ed. reflexivity. }
  split; [intros A; exact (@run_advance DA A)|].
  exact deadline_after_exact.
Qed.

(** C3 fails on the code: in binary64, from the wall-clock reading
    1790000000 with the period [DT = 1/200], the deadline after 1000 ticks
    is not the grid point [t0 + 1000 * DT] (which both the rounded and the
    exact product and sum place at [t0 + 5]) but more than a tenth of a
    millisecond later: at that magnitude each [t1 += dt] adds
    0.0050001144..., not [DT]. *)
Lemma C3_counterexample :
  PrimFloat.eqb
    (Binary64.deadline_after Binary64.t0_sample Binary64.DT 1000)
    (Binary64.grid_point Binary64.t0_sample Binary64.DT Binary64.thousand)
    = false /\
  PrimFloat.ltb Binary64.tenth_of_ms
    (PrimFloat.sub
       (Binary64.deadline_after Binary64.t0_sample Binary64.DT 1000)
       (Binary64.grid_point Binary64.t0_sample Binary64.DT Binary64.thousand))
    = true /\
  PrimFloat.eqb
    (PrimFloat.sub (Binary64.next_deadline Binary64.t0_sample Binary64.DT)
                   Binary64.t0_sample)
    Binary64.DT
    = false.
Proof. vm_compute. repeat split. Qed.

(** When the deadline has already passed and no cancellation is pending,
    [__next__] hands out the tick at once: one unit of fuel is enough. *)
Lemma next_overrun s e c :
  LoopKiller._kill_now (SoftRealtimeLoop.killer s) = false ->
  LoopKiller._kill_soon (SoftRealtimeLoop.killer s) = false ->
  handler e (handler_i c) = false ->
  handler e (S (handler_i c)) = false ->
  SoftRealtimeLoop.t1 s <= clock e (clock_i c) ->
  SoftRealtimeLoop.t1 s <= clock e (S (clock_i c)) ->
  exists s' c',
    SoftRealtimeLoop.__next__ 1 s e c
      = (Ok (Some (SoftRealtimeLoop.t1 s + SoftRealtimeLoop.dt s
                   - SoftRealtimeLoop.t0 s), s'), c') /\
    clock_i c' = S (S (S (clock_i c))) /\
    handler_i c' = S (S (handler_i c)) /\
    sigwait_i c' = sigwait_i c /\ mono_i c' = mono_i c /\
    sensor_i c' = sensor_i c /\ yaw_i c' = yaw_i c /\
    write_i c' = write_i c /\ sent c' = sent c /\
    SoftRealtimeLoop.killer s' = SoftRealtimeLoop.killer s.
Proof.
  intros Hn Hs Hh1 Hh2 Hc1 Hc2.
  destruct s as [a0 a1 k d tt se sv sl nn rp]. simpl in *.
  unfold SoftRealtimeLoop.__next__, SoftRealtimeLoop.kill_now,
    SoftRealtimeLoop.coarse_wait, SoftRealtimeLoop.busy_wait,
    LoopKiller.kill_now, signal_delivered, time_time, bind, ret.
  simpl. rewrite Hh1, Hn, Hs. simpl.
  unfold PRECISION_OF_SLEEP.
  destruct (Rlt_dec _ _); [lra|]. simpl.
  destruct (Rlt_dec _ _); [lra|]. simpl.
  rewrite Hh2, Hn, Hs. simpl.
  destruct tt; simpl; eexists; eexists; (split; [reflexivity|]);
    simpl; repeat split.
Qed.

(** The first tick only sets the timing target; every later one adds a
    sample to the statistics. *)
Lemma next_tick_count fuel s e c t s' c' :
  SoftRealtimeLoop.__next__ fuel s e c = (Ok (Some t, s'), c') ->
  SoftRealtimeLoop.ttarg s' <> None /\
  SoftRealtimeLoop.n s' =
    match SoftRealtimeLoop.ttarg s with
    | None => SoftRealtimeLoop.n s
    | Some _ => (SoftRealtimeLoop.n s + 1)%Z
    end.
Proof.
  unfold SoftRealtimeLoop.__next__. intros H.
  inv_bind H. destruct a as [b s1]. apply kill_now_grid in Hm.
  destruct b; [inv_ret H|].
  inv_bind H. apply coarse_wait_grid in Hm0.
  inv_bind H. apply busy_wait_grid in Hm1.
  inv_bind H. destruct a1 as [b s4]. apply kill_now_grid in Hm2.
  destruct b; [inv_ret H|].
  pose proof (same_grid_trans _ _ _ Hm
               (same_grid_trans _ _ _ Hm0
                 (same_grid_trans _ _ _ Hm1 Hm2))) as G.
  destruct G as [_ [_ [_ [Gt [_ [_ [Gn _]]]]]]].
  simpl in H. rewrite <- Gt, <- Gn.
  destruct (SoftRealtimeLoop.ttarg s4);
    inv_bind H; inv_ret H; simpl; split; (discriminate || reflexivity).
Qed.

(** On a fresh loop object the sample count after [k] ticks is [k - 1]
    (and 0 for [k = 0]). *)
Lemma after_ticks_count self k s :
  SoftRealtimeLoop.ttarg self = None ->
  SoftRealtimeLoop.n self = 0%Z ->
  after_ticks self k s ->
  SoftRealtimeLoop.n s = Z.of_nat (pred k) /\
  (k = 0%nat -> SoftRealtimeLoop.ttarg s = None) /\
  (k <> 0%nat -> SoftRealtimeLoop.ttarg s <> None).
Proof.
  intros Ht Hn. induction 1 as [e c s c' H | k s fuel e c t s' c' Hk IH H].
  - unfold SoftRealtimeLoop.__iter__ in H. inv_bind H. inv_ret H. simpl.
    split; [assumption|]. split; [intros _; assumption|congruence].
  - apply next_tick_count in H. destruct H as [Hs Hc].
    destruct IH as [IHn [IH0 IHS]].
    split; [|split; [discriminate|intros _; exact Hs]].
    rewrite Hc. destruct k as [|k].
    + rewrite (IH0 eq_refl). exact IHn.
    + specialize (IHS (Nat.neq_succ_0 k)).
      destruct (SoftRealtimeLoop.ttarg s); [|congruence].
      rewrite IHn. simpl pred. lia.
Qed.

(** With fewer than two samples the report divides by zero. *)
Lemma del_raises s e c :
  SoftRealtimeLoop.report s = true ->
  SoftRealtimeLoop.dt s <> 0 ->
  (SoftRealtimeLoop.n s = 0 \/ SoftRealtimeLoop.n s = 1)%Z ->
  SoftRealtimeLoop.__del__ s e c = (Raise ZeroDivisionError, c).
Proof.
  intros Hr Hd Hn. unfold SoftRealtimeLoop.__del__. rewrite Hr.
  unfold bind, py_div at 1.
  destruct (Req_dec_T (SoftRealtimeLoop.dt s) 0); [contradiction|].
  unfold ret. destruct Hn as [Hn|Hn]; rewrite Hn; unfold py_div; simpl.
  - destruct (Req_dec_T 0 0); [reflexivity|lra].
  - destruct (Req_dec_T 1 0); [lra|].
    unfold ret. simpl. destruct (Req_dec_T 1 0); [lra|].
    destruct (Req_dec_T 0 0); [reflexivity|lra].
Qed.

(** With two samples or more, a nonzero period, a nonnegative variance
    term and a nonzero elapsed time, the report is produced. *)
Lemma del_reports s e c :
  SoftRealtimeLoop.report s = true ->
  SoftRealtimeLoop.dt s <> 0 ->
  (2 <= SoftRealtimeLoop.n s)%Z ->
  0 <= (SoftRealtimeLoop.sum_var s
        - SoftRealtimeLoop.sum_err s ^ 2 / IZR (SoftRealtimeLoop.n s))
       / IZR (SoftRealtimeLoop.n s - 1) ->
  clock e (clock_i c) <> SoftRealtimeLoop.t0 s ->
  exists r, SoftRealtimeLoop.__del__ s e c = (Ok (Some r), adv_clock c) /\
            SoftRealtimeLoop.cycles r = SoftRealtimeLoop.n s.
Proof.
  intros Hr Hd Hn Hv Hc. unfold SoftRealtimeLoop.__del__. rewrite Hr.
  assert (Hn0 : IZR (SoftRealtimeLoop.n s) <> 0).
  { apply not_0_IZR. lia. }
  assert (Hn1 : IZR (SoftRealtimeLoop.n s - 1) <> 0).
  { apply not_0_IZR. lia. }
  unfold bind, py_div, py_sqrt, SoftRealtimeLoop.time, time_time, ret.
  destruct (Req_dec_T (SoftRealtimeLoop.dt s) 0); [contradiction|].
  destruct (Req_dec_T (IZR (SoftRealtimeLoop.n s)) 0); [contradiction|].
  destruct (Req_dec_T (IZR (SoftRealtimeLoop.n s - 1)) 0); [contradiction|].
  destruct (Rlt_dec _ 0); [lra|]. simpl.
  match goal with
  | |- context [Req_dec_T ?a ?b] => destruct (Req_dec_T a b); [lra|]
  end.
  eexists. split; reflexivity.
Qed.

Lemma main_cancelled :
  exists loop l c,
    main (L := simple_pid) 1 env_cancelled cursor0 = (Ok (loop, l), c) /\
    SoftRealtimeLoop.n loop = 0%Z /\
    SoftRealtimeLoop.report loop = true /\
    SoftRealtimeLoop.dt loop = DT /\
    sent c = [mkCommands 0.0 0 0 0; mkCommands 1.0 0.0 0.0 0.0].
Proof.
  unfold main, setup, shutdown, for_loop, SoftRealtimeLoop.__next__,
    SoftRealtimeLoop.__init__, SoftRealtimeLoop.__iter__,
    SoftRealtimeLoop.kill_now, LoopKiller.handle_signal,
    LoopKiller.set_kill_now, LoopKiller.kill_now, new_pid, send_topic_data,
    time_sleep, signal_delivered, time_time, bind, ret.
  simpl.
  destruct (Rgt_dec 0.0 0); [lra|]. simpl.
  eexists. eexists. eexists. split; [reflexivity|]. simpl. repeat split.
Qed.

Lemma DT_nonzero : DT <> 0.
Proof. unfold DT, FREQ. lra. Qed.

(** C9 (the report is not total): a run of [__main__] cancelled before its
    first tick leaves the loop object with [n = 0], and its [__del__]
    raises [ZeroDivisionError] at the division by [n]; more generally the
    report raises whenever [n] is 0 or 1, at the division by [n] or by
    [n - 1]. *)
Theorem C9_report_raises_on_short_run :
  (exists loop l c,
     main (L := simple_pid) 1 env_cancelled cursor0 = (Ok (loop, l), c) /\
     SoftRealtimeLoop.n loop = 0%Z /\
     forall e1 c1,
       SoftRealtimeLoop.__del__ loop e1 c1 = (Raise ZeroDivisionError, c1)) /\
  (forall s e c,
     SoftRealtimeLoop.report s = true ->
     SoftRealtimeLoop.dt s <> 0 ->
     (SoftRealtimeLoop.n s = 0 \/ SoftRealtimeLoop.n s = 1)%Z ->
     SoftRealtimeLoop.__del__ s e c = (Raise ZeroDivisionError, c)).
Proof.
  split; [|exact del_raises].
  destruct main_cancelled as [loop [l [c [Hm [Hn [Hr [Hd _]]]]]]].
  exists loop, l, c. split; [exact Hm|]. split; [exact Hn|].
  intros e1 c1. apply del_raises.
  - exact Hr.
  - rewrite Hd. exact DT_nonzero.
  - left. exact Hn.
Qed.

(** ** Kinematic transform *)

Lemma ALPHA_quarter_turn : ALPHA = PI / 4.
Proof. unfold ALPHA, deg2rad. lra. Qed.

Lemma sin_ALPHA_pos : 0 < sin ALPHA.
Proof.
  rewrite ALPHA_quarter_turn. pose proof PI_RGT_0.
  apply sin_gt_0; lra.
Qed.

Lemma cos_ALPHA_pos : 0 < cos ALPHA.
Proof.
  rewrite ALPHA_quarter_turn. pose proof PI_RGT_0.
  apply cos_gt_0; lra.
Qed.

(** C8: for equal wheel velocities [v, v, v] the roll and pitch
    components of [J . dpsi] are zero and the yaw component is
    [RW / (RK * sin ALPHA) * v], a nonzero multiple of [v]: it vanishes
    only when [v] does. *)
Theorem C8_pure_spin (v : R) :
  let dphi := matmul J (mkVec3 v v v) in
  v0 dphi = 0 /\
  v1 dphi = 0 /\
  v2 dphi = RW / (RK * sin ALPHA) * v /\
  RW / (RK * sin ALPHA) <> 0 /\
  (v2 dphi = 0 <-> v = 0).
Proof.
  pose proof sin_ALPHA_pos as Hs.
  assert (Hk : 0 < RW / (RK * sin ALPHA)).
  { apply Rdiv_lt_0_compat; [unfold RW; lra|].
    apply Rmult_lt_0_compat; [unfold RK; lra|exact Hs]. }
  assert (Hy : v2 (matmul J (mkVec3 v v v)) = RW / (RK * sin ALPHA) * v).
  { unfold matmul, dot, J; simpl. unfold J32, J33, J31, RW, RK.
    field. lra. }
  intros dphi. subst dphi. rewrite Hy.
  split; [unfold matmul, dot, J; simpl; unfold J13, J11, J12, Rdiv; ring|].
  split; [unfold matmul, dot, J; simpl; unfold J23, J21; ring|].
  split; [reflexivity|]. split; [lra|]. split.
  - intros H0. apply Rmult_integral in H0. destruct H0; [lra|assumption].
  - intros ->. ring.
Qed.

(** ** Command mixing *)

Lemma safety_envelope_id st dphi Ty : safety_envelope st dphi Ty = Ty.
Proof.
  unfold safety_envelope.
  destruct (_ || _); [reflexivity|]. destruct (Rgtb _ _); reflexivity.
Qed.

Lemma Rabs_bounds x b : Rabs x <= b -> - b <= x <= b.
Proof. unfold Rabs. destruct (Rcase_abs x); lra. Qed.

Lemma mix_within Tx Ty Tz cmd :
  Rabs Tx <= MAX_DUTY ->
  Rabs Ty <= MAX_DUTY ->
  Rabs Tz <= MoController.MAX_TZ ->
  duties_within (mix Tx Ty Tz cmd).
Proof.
  unfold duties_within, DUTY_1_BOUND, DUTY_23_BOUND, MAX_DUTY,
    MoController.MAX_TZ, mix. simpl.
  intros Hx Hy Hz.
  apply Rabs_bounds in Hx. apply Rabs_bounds in Hy. apply Rabs_bounds in Hz.
  repeat split; apply Rabs_le; lra.
Qed.

(** Every value the gamepad thread stores in [Tz] is within [MAX_TZ]. *)
Lemma Tz_value_bounded x :
  MoController.Tz_value x -> Rabs x <= MoController.MAX_TZ.
Proof.
  unfold MoController.Tz_value, MoController.on_R1_press,
    MoController.on_L1_press, MoController.Tz_at_rest, MoController.MAX_TZ.
  intros [H|[H|H]].
  - subst x. apply Rabs_le. lra.
  - apply in_map_iff in H. destruct H as [i [H _]]. subst x.
    pose proof (SIN_bound (INR i)). apply Rabs_le. lra.
  - apply in_map_iff in H. destruct H as [i [H _]]. subst x.
    pose proof (SIN_bound (INR i)). apply Rabs_le. lra.
Qed.

(** ** The control tick *)

Section Tick.

Context {L : PIDLib}.

(** A tick that finds no state message changes nothing but the position
    in the sensor oracle. *)
Lemma loop_body_calibrating (l : Locals) e c :
  sensor e (sensor_i c) = SensorKeyError ->
  loop_body l e c = (Ok l, adv_sensor c).
Proof.
  intros H. unfold loop_body, bind, get_cur_topic_data. rewrite H.
  reflexivity.
Qed.

(** A tick that reads a state message: both controllers are called, the
    command is mixed from their outputs and the yaw torque, and written. *)
Lemma loop_body_data (l : Locals) e c st :
  sensor e (sensor_i c) = SensorData st ->
  let roll := pid_call (theta_roll_pid l) (mono e (mono_i c)) (theta_roll st) in
  let pitch :=
    pid_call (theta_pitch_pid l) (mono e (S (mono_i c))) (theta_pitch st) in
  let tz := yaw e (yaw_i c) in
  let dpsi' := mkVec3 (dpsi_1 st) (dpsi_2 st) (dpsi_3 st) in
  let dphi' := matmul J dpsi' in
  let cmd := mix (fst roll) (fst pitch) tz (commands l) in
  loop_body l e c =
    (if write_ok e (write_i c)
     then Ok (mkLocals cmd st dpsi' dphi' dphi'
                       (vdiv (vsub dphi' (prev_dphi l)) DT)
                       (snd roll) (snd pitch)
                       (Some (fst roll)) (Some (fst pitch)) (Some tz))
     else Raise WriteFault,
     adv_write cmd (adv_yaw (adv_mono (adv_mono (adv_sensor c))))).
Proof.
  intros H. unfold loop_body, bind, get_cur_topic_data, call_pid, read_Tz,
    send_topic_data, ret.
  rewrite H. simpl.
  destruct (pid_call (theta_roll_pid l) _ _) as [tx rp].
  destruct (pid_call (theta_pitch_pid l) _ _) as [ty pp]. simpl.
  rewrite safety_envelope_id.
  destruct (write_ok e (write_i c)); reflexivity.
Qed.

(** C7: on a tick whose sensor read signals that no state message is
    available yet, the body returns at once: no command is passed to the
    serial interface, neither controller is called (their clock is not
    even read), and every variable of the control state (previous body
    rate, both controllers, the last torques and command) keeps its value;
    the [for] loop then goes on to ask the scheduler for the next tick. *)
Theorem C7_skipped_tick (l : Locals) (e : Env) (c : Cursor) :
  sensor e (sensor_i c) = SensorKeyError ->
  (exists c',
     loop_body l e c = (Ok l, c') /\
     sent c' = sent c /\ write_i c' = write_i c /\
     mono_i c' = mono_i c /\ yaw_i c' = yaw_i c) /\
  (forall fuel loop c0 t loop',
     SoftRealtimeLoop.__next__ (S fuel) loop e c0 = (Ok (Some t, loop'), c) ->
     for_loop (S fuel) loop l e c0 = for_loop fuel loop' l e (adv_sensor c)).
Proof.
  intros H. split.
  - exists (adv_sensor c). rewrite (loop_body_calibrating l e c H).
    repeat split.
  - intros fuel loop c0 t loop' Hn.
    change (for_loop (S fuel) loop l e c0) with
      (bind (SoftRealtimeLoop.__next__ (S fuel) loop)
         (fun x => match x with
                   | (Some _, loop) =>
                       bind (loop_body l) (fun l => for_loop fuel loop l)
                   | (None, loop) => ret (loop, l)
                   end) e c0).
    unfold bind at 1. rewrite Hn. unfold bind.
    rewrite (loop_body_calibrating l e c H). reflexivity.
Qed.

(** C1, the defect: the safety envelope constrains nothing.  Its branches
    are commented as the tilt constraint and as stopping the torque input,
    but they are [pass], [pass] and [Ty = Ty], and [Ty] has been assigned
    from the pitch controller just before; so on every tick that reads a
    sensor state, envelope tripped or not, the conditional returns the
    torque it is given and the pitch torque that reaches the mixing
    equations is the output the pitch controller computed on that tick,
    not the torque of the previous tick. *)
Theorem C1_pitch_torque_is_fresh (l : Locals) (e : Env) (c : Cursor)
    (st : States) :
  sensor e (sensor_i c) = SensorData st ->
  (forall ty, safety_envelope st (matmul J (mkVec3 (dpsi_1 st) (dpsi_2 st)
                                                   (dpsi_3 st))) ty = ty) /\
  exists r c' cmd,
    loop_body l e c = (r, c') /\
    sent c' = sent c ++ [cmd] /\
    cmd = mix (fresh_Tx l e c st) (fresh_Ty l e c st) (yaw e (yaw_i c))
              (commands l) /\
    forall l', r = Ok l' -> Ty l' = Some (fresh_Ty l e c st).
Proof.
  intros H. split; [intros ty; apply safety_envelope_id|].
  pose proof (loop_body_data l e c st H) as E. simpl in E.
  eexists. eexists. eexists. split; [exact E|].
  split; [reflexivity|]. split; [reflexivity|].
  intros l' Hr. destruct (write_ok e (write_i c)); [|discriminate].
  inversion Hr. reflexivity.
Qed.

End Tick.

(** ** The [simple_pid] instance *)

Lemma clamp_spec v lo hi :
  lo <= hi ->
  lo <= SimplePID._clamp v (Some lo, Some hi) <= hi /\
  (lo <= v <= hi -> SimplePID._clamp v (Some lo, Some hi) = v) /\
  (v < lo -> SimplePID._clamp v (Some lo, Some hi) = lo) /\
  (hi < v -> SimplePID._clamp v (Some lo, Some hi) = hi).
Proof.
  intros H. unfold SimplePID._clamp. simpl.
  destruct (Rgt_dec v hi); [|destruct (Rlt_dec v lo)];
    repeat split; intros; lra.
Qed.

(** A call made at least one sample time after the last update
    recomputes the output. *)
Lemma call_updates (p : SimplePID.t) now x st :
  SimplePID.sample_time p = Some st ->
  0 < st <= now - SimplePID._last_time p ->
  SimplePID.__call__ p now x =
    let dt := now - SimplePID._last_time p in
    let error := SimplePID.setpoint p - x in
    let d_input :=
      x - match SimplePID._last_input p with Some v => v | None => x end in
    let proportional := SimplePID.Kp p * error in
    let integral :=
      SimplePID._clamp (SimplePID._integral p + SimplePID.Ki p * error * dt)
                       (SimplePID.output_limits p) in
    let derivative := - SimplePID.Kd p * d_input / dt in
    let output :=
      SimplePID._clamp (proportional + integral + derivative)
                       (SimplePID.output_limits p) in
    (output,
     SimplePID.mk (SimplePID.Kp p) (SimplePID.Ki p) (SimplePID.Kd p)
       (SimplePID.setpoint p) (SimplePID.sample_time p)
       (SimplePID._min_output p) (SimplePID._max_output p)
       proportional integral derivative now (Some output) (Some x)).
Proof.
  intros Hst Hdt. unfold SimplePID.__call__. rewrite Hst.
  destruct (Req_dec_T _ 0); [lra|].
  destruct (SimplePID._last_output p); [|reflexivity].
  destruct (Rlt_dec _ st); [lra|reflexivity].
Qed.

Lemma simple_pid_within_set lo hi Kp Ki Kd setpoint now :
  lo <= hi ->
  simple_pid_within lo hi
    (SimplePID.set_output_limits lo hi
       (SimplePID.__init__ Kp Ki Kd setpoint now)).
Proof.
  intros H. unfold simple_pid_within. simpl.
  split; [exact H|]. split; [reflexivity|]. discriminate.
Qed.

Lemma simple_pid_within_call lo hi p now x :
  simple_pid_within lo hi p ->
  simple_pid_within lo hi (snd (SimplePID.__call__ p now x)) /\
  lo <= fst (SimplePID.__call__ p now x) <= hi.
Proof.
  intros [Hle [Hlim Hlast]]. unfold SimplePID.__call__.
  assert (Hupd : forall dt,
    let out :=
      SimplePID._clamp
        (SimplePID.Kp p * (SimplePID.setpoint p - x)
         + SimplePID._clamp
             (SimplePID._integral p
              + SimplePID.Ki p * (SimplePID.setpoint p - x) * dt)
             (SimplePID.output_limits p)
         + - SimplePID.Kd p
             * (x - match SimplePID._last_input p with
                    | Some v => v
                    | None => x
                    end) / dt)
        (SimplePID.output_limits p) in
    lo <= out <= hi).
  { intros dt out. subst out. rewrite Hlim. apply clamp_spec. exact Hle. }
  set (dt := if Req_dec_T (now - SimplePID._last_time p) 0
             then 1e-16 else now - SimplePID._last_time p).
  specialize (Hupd dt). simpl in Hupd.
  assert (Hout : forall a b c d e,
    simple_pid_within lo hi
      (SimplePID.mk (SimplePID.Kp p) (SimplePID.Ki p) (SimplePID.Kd p)
         (SimplePID.setpoint p) (SimplePID.sample_time p)
         (SimplePID._min_output p) (SimplePID._max_output p)
         a b c d
         (Some (SimplePID._clamp e (SimplePID.output_limits p)))
         (Some x))).
  { intros a b c d e. unfold simple_pid_within. simpl.
    split; [exact Hle|]. split; [exact Hlim|].
    intros v Hv. inversion Hv. rewrite Hlim. apply clamp_spec. exact Hle. }
  destruct (SimplePID.sample_time p) as [st|];
    [destruct (SimplePID._last_output p) as [last|] eqn:El;
       [destruct (Rlt_dec dt st)|]|];
    simpl; split; try apply Hout; try exact Hupd.
  - unfold simple_pid_within. split; [exact Hle|]. split; [exact Hlim|].
    intros v Hv. apply Hlast. congruence.
  - apply Hlast. congruence.
Qed.

Definition simple_pid_lawful : PIDLawful simple_pid :=
  @Build_PIDLawful simple_pid simple_pid_within
    simple_pid_within_set simple_pid_within_call.

(** ** What is written to the serial interface *)

Create HintDb sent.

Lemma keeps_ret {A} (a : A) : keeps_sent (ret a).
Proof. intros e c r c' H. inversion H. reflexivity. Qed.

Lemma keeps_raise {A} x : keeps_sent (@raise A x).
Proof. intros e c r c' H. inversion H. reflexivity. Qed.

Lemma keeps_starve {A} : keeps_sent (@starve A).
Proof. intros e c r c' H. inversion H. reflexivity. Qed.

Lemma keeps_bind {A B} (m : M A) (f : A -> M B) :
  keeps_sent m -> (forall a, keeps_sent (f a)) -> keeps_sent (bind m f).
Proof.
  intros Hm Hf e c r c' H. unfold bind in H.
  destruct (m e c) as [[a|x|] c1] eqn:E; apply Hm in E.
  - apply Hf in H. congruence.
  - inversion H; subst. exact E.
  - inversion H; subst. exact E.
Qed.

Lemma keeps_time_time : keeps_sent time_time.
Proof. intros e c r c' H. inversion H. reflexivity. Qed.

Lemma keeps_sigtimedwait : keeps_sent sigtimedwait.
Proof. intros e c r c' H. inversion H. reflexivity. Qed.

Lemma keeps_signal_delivered : keeps_sent signal_delivered.
Proof. intros e c r c' H. inversion H. reflexivity. Qed.

Lemma keeps_time_sleep x : keeps_sent (time_sleep x).
Proof. apply keeps_ret. Qed.

Lemma keeps_py_sub x y : keeps_sent (py_sub x y).
Proof. destruct y; [apply keeps_ret|apply keeps_raise]. Qed.

Lemma keeps_py_div x y : keeps_sent (py_div x y).
Proof.
  unfold py_div. destruct (Req_dec_T y 0); [apply keeps_raise|apply keeps_ret].
Qed.

#[local] Hint Resolve keeps_ret keeps_raise keeps_starve keeps_time_time
  keeps_sigtimedwait keeps_signal_delivered keeps_time_sleep keeps_py_sub
  keeps_py_div : sent.

(** Break a computation down to its primitive steps. *)
Ltac keeps :=
  repeat first
    [ apply keeps_bind
    | progress cbv beta zeta
    | lazymatch goal with
      | |- keeps_sent _ => fail
      | |- forall _, _ => intro
      end
    | match goal with
      | |- keeps_sent (match ?x with (_, _) => _ end) => destruct x
      | |- keeps_sent (if ?b then _ else _) => destruct b
      | |- keeps_sent (match ?x with Some _ => _ | None => _ end) =>
          destruct x
      end
    | solve [auto with sent] ].

Lemma keeps_killer_get k : keeps_sent (LoopKiller.kill_now k).
Proof. unfold LoopKiller.kill_now. keeps. Qed.

Lemma keeps_killer_set v k : keeps_sent (LoopKiller.set_kill_now v k).
Proof. unfold LoopKiller.set_kill_now. keeps. Qed.

Lemma keeps_handle_signal k : keeps_sent (LoopKiller.handle_signal k).
Proof. apply keeps_killer_set. Qed.

#[local] Hint Resolve keeps_killer_get keeps_killer_set
  keeps_handle_signal : sent.

Lemma keeps_kill_now s : keeps_sent (SoftRealtimeLoop.kill_now s).
Proof.
  unfold SoftRealtimeLoop.kill_now. keeps.
Qed.

Lemma keeps_stop s : keeps_sent (SoftRealtimeLoop.stop s).
Proof. unfold SoftRealtimeLoop.stop. keeps. Qed.

#[local] Hint Resolve keeps_kill_now keeps_stop : sent.

Lemma keeps_coarse_wait fuel : forall s,
  keeps_sent (SoftRealtimeLoop.coarse_wait fuel s).
Proof.
  induction fuel as [|fuel IH]; intros s; simpl; [apply keeps_starve|].
  keeps.
Qed.

Lemma keeps_busy_wait fuel : forall s,
  keeps_sent (SoftRealtimeLoop.busy_wait fuel s).
Proof.
  induction fuel as [|fuel IH]; intros s; simpl; [apply keeps_starve|].
  keeps.
Qed.

#[local] Hint Resolve keeps_coarse_wait keeps_busy_wait : sent.

Lemma keeps_next fuel s : keeps_sent (SoftRealtimeLoop.__next__ fuel s).
Proof. unfold SoftRealtimeLoop.__next__. keeps. Qed.

Lemma keeps_init d r f : keeps_sent (SoftRealtimeLoop.__init__ d r f).
Proof. unfold SoftRealtimeLoop.__init__. keeps. Qed.

Lemma keeps_iter s : keeps_sent (SoftRealtimeLoop.__iter__ s).
Proof. unfold SoftRealtimeLoop.__iter__. keeps. Qed.

#[local] Hint Resolve keeps_next keeps_init keeps_iter : sent.

Lemma zero_duties_within k : duties_within (mkCommands k 0 0 0).
Proof.
  unfold duties_within, DUTY_1_BOUND, DUTY_23_BOUND, MAX_DUTY,
    MoController.MAX_TZ. simpl.
  rewrite Rabs_R0. repeat split; lra.
Qed.

Lemma kill_command_within cmd : duties_within (kill_command cmd).
Proof.
  unfold kill_command. replace 0.0 with 0 by lra. apply zero_duties_within.
Qed.

Section Written.

Context {L : PIDLib} {HL : PIDLawful L}.
Variable e : Env.
Hypothesis Hyaw : yaw_bounded e.

Lemma sends_bind {A B} (m : M A) (f : A -> M B) (Q : A -> Prop)
    (Q' : B -> Prop) :
  sends_within e m Q ->
  (forall a, Q a -> sends_within e (f a) Q') ->
  sends_within e (bind m f) Q'.
Proof.
  intros Hm Hf c r c' HF H. unfold bind in H.
  destruct (m e c) as [[a|x|] c1] eqn:E;
    destruct (Hm c _ c1 HF E) as [HF1 HQ].
  - exact (Hf a (HQ a eq_refl) c1 r c' HF1 H).
  - inversion H; subst. split; [exact HF1|discriminate].
  - inversion H; subst. split; [exact HF1|discriminate].
Qed.

Lemma sends_keeps {A} (m : M A) :
  keeps_sent m -> sends_within e m (fun _ => True).
Proof.
  intros Hk c r c' HF H. apply Hk in H. rewrite H. split; [exact HF|trivial].
Qed.

Lemma sends_ret {A} (a : A) (Q : A -> Prop) :
  Q a -> sends_within e (ret a) Q.
Proof.
  intros HQ c r c' HF H. inversion H; subst.
  split; [exact HF|]. intros a' Ha. inversion Ha; subst. exact HQ.
Qed.

Lemma sends_send cmd :
  duties_within cmd -> sends_within e (send_topic_data cmd) (fun _ => True).
Proof.
  intros Hc c r c' HF H. unfold send_topic_data in H.
  assert (HF' : Forall duties_within (sent (adv_write cmd c))).
  { simpl. apply Forall_app. split; [exact HF|]. constructor; [exact Hc|].
    constructor. }
  destruct (write_ok e (write_i c)); inversion H; subst;
    split; trivial.
Qed.

Lemma sends_loop_body l :
  limits_set l -> sends_within e (loop_body l) limits_set.
Proof.
  intros [Hr Hp] c r c' HF H.
  destruct (sensor e (sensor_i c)) as [st|] eqn:Es.
  - rewrite (loop_body_data l e c st Es) in H. cbv zeta in H.
    destruct (pid_within_call _ _ _ (mono e (mono_i c)) (theta_roll st) Hr)
      as [Hr' Hx].
    destruct (pid_within_call _ _ _ (mono e (S (mono_i c)))
                (theta_pitch st) Hp) as [Hp' Hy].
    inversion H; subst. split.
    + simpl. apply Forall_app. split; [exact HF|].
      constructor; [|constructor].
      apply mix_within; [apply Rabs_le; lra|apply Rabs_le; lra|apply Hyaw].
    + intros l' Hl'. destruct (write_ok e (write_i c)); [|discriminate].
      inversion Hl'; subst. split; assumption.
  - rewrite (loop_body_calibrating l e c Es) in H. inversion H; subst.
    split; [exact HF|]. intros l' Hl'. inversion Hl'; subst. split; assumption.
Qed.

Lemma sends_for_loop fuel : forall loop l,
  limits_set l -> sends_within e (for_loop fuel loop l) (fun _ => True).
Proof.
  induction fuel as [|fuel IH]; intros loop l Hl; simpl.
  - apply sends_keeps. apply keeps_starve.
  - eapply sends_bind; [apply sends_keeps; apply keeps_next|].
    intros [[t|] loop'] _.
    + eapply sends_bind; [apply sends_loop_body; exact Hl|].
      intros l' Hl'. apply IH. exact Hl'.
    + apply sends_ret. trivial.
Qed.

Lemma sends_setup : sends_within e setup limits_set.
Proof.
  unfold setup.
  eapply sends_bind; [apply sends_keeps; apply keeps_time_sleep|].
  intros _ _.
  eapply sends_bind;
    [apply sends_send; replace 0.0 with 0 by lra; apply zero_duties_within|].
  intros _ _.
  intros c r c' HF H. unfold bind, new_pid, ret in H. inversion H; subst.
  split; [exact HF|]. intros l Hl. inversion Hl; subst.
  assert (Hle : - MAX_DUTY <= MAX_DUTY) by (unfold MAX_DUTY; lra).
  split; simpl; apply pid_within_set; exact Hle.
Qed.

Lemma sends_main fuel : sends_within e (main fuel) (fun _ => True).
Proof.
  unfold main.
  eapply sends_bind; [apply sends_setup|]. intros l Hl.
  eapply sends_bind; [apply sends_keeps; apply keeps_init|]. intros loop _.
  eapply sends_bind; [apply sends_keeps; apply keeps_iter|]. intros loop' _.
  eapply sends_bind; [apply sends_for_loop; exact Hl|].
  intros [loop'' l'] _.
  apply (sends_bind _ _ (fun _ => True));
    [|intros; apply sends_ret; trivial].
  unfold shutdown.
  eapply sends_bind; [apply sends_send; apply kill_command_within|].
  intros _ _. apply sends_ret. exact I.
Qed.

End Written.

(** ** Runs of the control loop with [simple_pid] *)

Lemma app_pid_setup t0 :
  app_pid (SimplePID.set_output_limits (- MAX_DUTY) MAX_DUTY
             (SimplePID.__init__ THETA_KP THETA_KI THETA_KD 0.0 t0))
          t0 None.
Proof.
  unfold app_pid. simpl.
  assert (H : - MAX_DUTY <= MAX_DUTY) by (unfold MAX_DUTY; lra).
  destruct (clamp_spec 0 _ _ H) as [_ [Hin _]].
  rewrite Hin by (unfold MAX_DUTY; lra). repeat split.
Qed.

Lemma app_pid_call p t prev now x :
  app_pid p t prev ->
  0.01 <= now - t ->
  fst (SimplePID.__call__ p now x) =
    SimplePID._clamp
      (THETA_KP * (0.0 - x)
       + - THETA_KD * (x - match prev with Some v => v | None => x end)
         / (now - t))
      (Some (- MAX_DUTY), Some MAX_DUTY) /\
  app_pid (snd (SimplePID.__call__ p now x)) now (Some x).
Proof.
  intros [HKp [HKi [HKd [Hsp [Hst [Hlim [Hint [Ht Hprev]]]]]]]] Hdt.
  assert (H : - MAX_DUTY <= MAX_DUTY) by (unfold MAX_DUTY; lra).
  rewrite (call_updates p now x 0.01) by (rewrite ?Ht; (exact Hst || lra)).
  cbv zeta. simpl fst. simpl snd.
  rewrite HKp, HKi, HKd, Hsp, Hlim, Hint, Ht, Hprev.
  assert (Hi : SimplePID._clamp (0 + THETA_KI * (0.0 - x) * (now - t))
                 (Some (- MAX_DUTY), Some MAX_DUTY) = 0).
  { destruct (clamp_spec (0 + THETA_KI * (0.0 - x) * (now - t)) _ _ H)
      as [_ [Hin _]].
    rewrite Hin; unfold THETA_KI, MAX_DUTY; lra. }
  rewrite Hi. split.
  - f_equal. lra.
  - unfold app_pid. simpl. repeat split; assumption.
Qed.

Lemma bind_eval {A B} (m : M A) (f : A -> M B) e c a c1 :
  m e c = (Ok a, c1) -> bind m f e c = f a e c1.
Proof. intros H. unfold bind. rewrite H. reflexivity. Qed.

Lemma setup_simple_pid e c :
  write_ok e (write_i c) = true ->
  exists l0,
    setup (L := simple_pid) e c
      = (Ok l0, adv_mono (adv_mono (adv_write (mkCommands 0.0 0 0 0) c))) /\
    commands l0 = mkCommands 0.0 0 0 0 /\
    app_pid (theta_roll_pid l0) (mono e (mono_i c)) None /\
    app_pid (theta_pitch_pid l0) (mono e (S (mono_i c))) None.
Proof.
  intros Hw. unfold setup, bind, ret, time_sleep, send_topic_data, new_pid.
  simpl. rewrite Hw. simpl. eexists. split; [reflexivity|]. simpl.
  split; [reflexivity|]. split; apply app_pid_setup.
Qed.

Lemma MAX_DUTY_order : - MAX_DUTY <= MAX_DUTY.
Proof. unfold MAX_DUTY. lra. Qed.

(** The first output of a controller is the clamped proportional term. *)
Lemma first_call p t now x :
  app_pid p t None ->
  0.01 <= now - t ->
  fst (SimplePID.__call__ p now x) =
    SimplePID._clamp (THETA_KP * (0.0 - x))
                     (Some (- MAX_DUTY), Some MAX_DUTY) /\
  app_pid (snd (SimplePID.__call__ p now x)) now (Some x).
Proof.
  intros Hp Hdt. destruct (app_pid_call p t None now x Hp Hdt) as [E Hp'].
  split; [|exact Hp']. rewrite E. f_equal. unfold Rdiv. ring.
Qed.

Lemma MAX_TILT_lower : 0.08 < MAX_TILT.
Proof. unfold MAX_TILT, deg2rad. pose proof PI2_3_2. lra. Qed.

Lemma clamp_high v :
  MAX_DUTY < v ->
  SimplePID._clamp v (Some (- MAX_DUTY), Some MAX_DUTY) = MAX_DUTY.
Proof. intros H. apply (clamp_spec v _ _ MAX_DUTY_order). exact H. Qed.

Lemma clamp_low v :
  v < - MAX_DUTY ->
  SimplePID._clamp v (Some (- MAX_DUTY), Some MAX_DUTY) = - MAX_DUTY.
Proof. intros H. apply (clamp_spec v _ _ MAX_DUTY_order). exact H. Qed.

Lemma clamp_mid v :
  - MAX_DUTY <= v <= MAX_DUTY ->
  SimplePID._clamp v (Some (- MAX_DUTY), Some MAX_DUTY) = v.
Proof. intros H. apply (clamp_spec v _ _ MAX_DUTY_order). exact H. Qed.

(** C2 fails on the code: with the robot leaning 0.08 rad on both axes
    (inside the tilt limit) and the yaw torque at rest, both controllers
    saturate at [MAX_DUTY] and the duty of motor 2 exceeds [MAX_DUTY]. *)
Lemma C2_counterexample :
  exists l0 c0 l1 c1 cmd st,
    setup (L := simple_pid) env_leaning cursor0 = (Ok l0, c0) /\
    sensor env_leaning (sensor_i c0) = SensorData st /\
    loop_body l0 env_leaning c0 = (Ok l1, c1) /\
    sent c1 = sent c0 ++ [cmd] /\
    Rabs (fresh_Tx l0 env_leaning c0 st) <= MAX_DUTY /\
    Rabs (fresh_Ty l0 env_leaning c0 st) <= MAX_DUTY /\
    Rabs (yaw env_leaning (yaw_i c0)) <= MoController.MAX_TZ /\
    ~ Rabs (motor_2_duty cmd) <= MAX_DUTY.
Proof.
  destruct (setup_simple_pid env_leaning cursor0 eq_refl)
    as [l0 [Hs [Hc [Hr Hp]]]].
  set (st := mkStates (-0.08) (-0.08) 0 0 0).
  set (c0 := adv_mono (adv_mono (adv_write (mkCommands 0.0 0 0 0) cursor0)))
    in *.
  pose proof (loop_body_data l0 env_leaning c0 st eq_refl) as Hb.
  cbv zeta in Hb.
  assert (HTx : fresh_Tx l0 env_leaning c0 st = MAX_DUTY).
  { unfold fresh_Tx.
    destruct (first_call _ _ (mono env_leaning (mono_i c0)) (theta_roll st) Hr)
      as [E _]; [simpl; lra|].
    simpl in E. simpl. rewrite E. apply clamp_high.
    unfold THETA_KP, MAX_DUTY. lra. }
  assert (HTy : fresh_Ty l0 env_leaning c0 st = MAX_DUTY).
  { unfold fresh_Ty.
    destruct (first_call _ _ (mono env_leaning (S (mono_i c0)))
                (theta_pitch st) Hp) as [E _]; [simpl; lra|].
    simpl in E. simpl. rewrite E. apply clamp_high.
    unfold THETA_KP, MAX_DUTY. lra. }
  unfold fresh_Tx in HTx. unfold fresh_Ty in HTy.
  rewrite HTx, HTy in Hb. simpl in Hb.
  eexists. eexists. eexists. eexists. eexists. exists st.
  split; [exact Hs|]. split; [reflexivity|]. split; [exact Hb|].
  split; [reflexivity|].
  unfold fresh_Tx, fresh_Ty. rewrite HTx, HTy.
  split; [rewrite Rabs_right; unfold MAX_DUTY; lra|].
  split; [rewrite Rabs_right; unfold MAX_DUTY; lra|].
  split; [simpl; rewrite Rabs_R0; unfold MoController.MAX_TZ; lra|].
  simpl. rewrite Rabs_left; unfold MAX_DUTY; lra.
Qed.

(** C2 (as the code has it): the duties are not clamped.  From torques
    within their limits the mixing equations give
    [|duty_1| <= 0.3333 * (MAX_TZ + 2.8284 * MAX_DUTY)] and
    [|duty_2|, |duty_3| <=
       0.3333 * (MAX_TZ + 1.4142 * (MAX_DUTY + 1.7320 * MAX_DUTY))],
    both bounds are reached and both exceed [MAX_DUTY]; every command that
    [__main__] passes to the serial interface, on every tick and however
    the run ends, is within these bounds when the yaw input is within
    [MAX_TZ]. *)
Theorem C2_duty_bounds :
  (forall Tx Ty Tz cmd,
     Rabs Tx <= MAX_DUTY -> Rabs Ty <= MAX_DUTY ->
     Rabs Tz <= MoController.MAX_TZ ->
     duties_within (mix Tx Ty Tz cmd)) /\
  (forall cmd,
     motor_1_duty (mix 0 MAX_DUTY (- MoController.MAX_TZ) cmd) = DUTY_1_BOUND /\
     motor_2_duty (mix (- MAX_DUTY) (- MAX_DUTY) (- MoController.MAX_TZ) cmd)
       = DUTY_23_BOUND /\
     motor_3_duty (mix MAX_DUTY (- MAX_DUTY) (- MoController.MAX_TZ) cmd)
       = DUTY_23_BOUND) /\
  MAX_DUTY < DUTY_1_BOUND < DUTY_23_BOUND /\
  (forall (L : PIDLib) (HL : PIDLawful L) e fuel r c',
     yaw_bounded e ->
     main fuel e cursor0 = (r, c') ->
     Forall duties_within (sent c')).
Proof.
  split; [exact mix_within|]. split; [|split].
  - intros cmd. unfold mix, DUTY_1_BOUND, DUTY_23_BOUND, MAX_DUTY,
      MoController.MAX_TZ. simpl. repeat split; lra.
  - unfold DUTY_1_BOUND, DUTY_23_BOUND, MAX_DUTY, MoController.MAX_TZ. lra.
  - intros L HL e fuel r c' Hy H.
    apply (sends_main e Hy fuel cursor0 r c'); [constructor|exact H].
Qed.

Lemma yaw_bounded_cancelled : yaw_bounded env_cancelled.
Proof.
  intros i. simpl. rewrite Rabs_R0. unfold MoController.MAX_TZ. lra.
Qed.

Lemma C2_duty_bounds_witness :
  exists c, Forall duties_within (sent c).
Proof.
  destruct main_cancelled as [loop [l [c [Hm _]]]].
  exists c.
  exact (proj2 (proj2 (proj2 C2_duty_bounds)) simple_pid simple_pid_lawful
           env_cancelled 1%nat _ c yaw_bounded_cancelled Hm).
Defined.

(** C1 fails on the code: on the second of two ticks the roll angle is 1.1
    times [MAX_TILT], so the envelope is tripped, yet the pitch torque that
    reaches the mixing equations is not held: it moves from [- MAX_DUTY]
    on the first tick to [MAX_DUTY] on the second. *)
Lemma C1_counterexample :
  exists l0 c0 l1 c1 l2 c2 st,
    setup (L := simple_pid) env_tilting cursor0 = (Ok l0, c0) /\
    loop_body l0 env_tilting c0 = (Ok l1, c1) /\
    sensor env_tilting (sensor_i c1) = SensorData st /\
    Rabs (theta_roll st) > MAX_TILT /\
    loop_body l1 env_tilting c1 = (Ok l2, c2) /\
    Ty l1 = Some (- MAX_DUTY) /\
    Ty l2 = Some MAX_DUTY /\
    Ty l2 <> Ty l1.
Proof.
  destruct (setup_simple_pid env_tilting cursor0 eq_refl)
    as [l0 [Hs [Hc [Hr Hp]]]].
  set (c0 := adv_mono (adv_mono (adv_write (mkCommands 0.0 0 0 0) cursor0)))
    in *.
  set (st1 := mkStates 0 0.1 0 0 0).
  set (st2 := mkStates (1.1 * MAX_TILT) (-0.1) 0 0 0).
  pose proof (loop_body_data l0 env_tilting c0 st1 eq_refl) as Hb1.
  cbv zeta in Hb1. simpl write_ok in Hb1. cbv iota in Hb1.
  match type of Hb1 with
  | _ = (Ok ?l, ?c) => set (l1 := l) in *; set (c1 := c) in *
  end.
  pose proof (loop_body_data l1 env_tilting c1 st2 eq_refl) as Hb2.
  cbv zeta in Hb2. simpl write_ok in Hb2. cbv iota in Hb2.
  destruct (first_call _ _ (mono env_tilting (S (mono_i c0)))
              (theta_pitch st1) Hp) as [E1 Hp1]; [simpl; lra|].
  destruct (app_pid_call _ _ _ (mono env_tilting (S (mono_i c1)))
              (theta_pitch st2) Hp1) as [E2 _]; [simpl; lra|].
  assert (H1 : Ty l1 = Some (- MAX_DUTY)).
  { unfold l1. simpl Ty. f_equal. simpl in E1. simpl. rewrite E1.
    apply clamp_low. unfold THETA_KP, MAX_DUTY. lra. }
  match type of Hb2 with
  | _ = (Ok ?l, ?c) => set (l2 := l) in *; set (c2 := c) in *
  end.
  assert (H2 : Ty l2 = Some MAX_DUTY).
  { unfold l2. simpl Ty. f_equal.
    change (theta_pitch_pid l1) with
      (snd (SimplePID.__call__ (theta_pitch_pid l0)
              (mono env_tilting (S (mono_i c0))) (theta_pitch st1))).
    simpl in E2. simpl. rewrite E2. apply clamp_high.
    unfold THETA_KP, THETA_KD, MAX_DUTY. lra. }
  exists l0, c0, l1, c1, l2, c2, st2.
  split; [exact Hs|]. split; [exact Hb1|]. split; [reflexivity|].
  split.
  { simpl. pose proof MAX_TILT_lower. rewrite Rabs_right; lra. }
  split; [exact Hb2|]. split; [exact H1|]. split; [exact H2|].
  rewrite H1, H2. intros H. inversion H. unfold MAX_DUTY in *. lra.
Qed.

(** C4 (as the code has it): when [__main__] runs to its end, that is when
    the loop ended with [StopIteration], the last command passed to the
    serial interface is the kill command: [kill = 1.0] and the three
    duties zero. *)
Theorem C4_kill_command_last {L : PIDLib} (fuel : nat) (e : Env)
    (c : Cursor) r c' :
  main fuel e c = (Ok r, c') ->
  exists earlier,
    sent c' = earlier ++ [mkCommands 1.0 0.0 0.0 0.0] /\
    commands (snd r) = mkCommands 1.0 0.0 0.0 0.0.
Proof.
  unfold main. intros H.
  inv_bind H. inv_bind H. inv_bind H. inv_bind H.
  match goal with p : (SoftRealtimeLoop.t * Locals)%type |- _ =>
    destruct p as [loop l]
  end.
  inv_bind H. inv_ret H.
  match goal with Hsh : shutdown _ _ _ = _ |- _ =>
    unfold shutdown in Hsh; inv_bind Hsh; inv_ret Hsh
  end.
  match goal with Hw : send_topic_data _ ?e0 ?c0 = _ |- _ =>
    unfold send_topic_data in Hw;
    destruct (write_ok e0 (write_i c0)); [|discriminate];
    inversion Hw; subst; exists (sent c0)
  end.
  split; reflexivity.
Qed.

Lemma C4_kill_command_last_witness :
  exists c earlier,
    sent c = earlier ++ [mkCommands 1.0 0.0 0.0 0.0].
Proof.
  destruct main_cancelled as [loop [l [c [Hm _]]]].
  destruct (C4_kill_command_last (L := simple_pid) 1 env_cancelled cursor0
              (loop, l) c Hm) as [earlier [H _]].
  exists c, earlier. exact H.
Defined.

(** C4 fails on the code: when the serial write of the first tick fails,
    the fault leaves [__main__] and the last command passed to the serial
    interface is that tick's, with a nonzero duty and the kill flag
    clear. *)
Lemma C4_counterexample :
  exists c earlier cmd,
    main (L := simple_pid) 1 env_write_fault cursor0 = (Raise WriteFault, c) /\
    sent c = earlier ++ [cmd] /\
    kill cmd = 0.0 /\
    kill cmd <> 1.0 /\
    motor_1_duty cmd <> 0.
Proof.
  destruct (setup_simple_pid env_write_fault cursor0 eq_refl)
    as [l0 [Hs [Hc [Hr Hp]]]].
  set (e := env_write_fault) in *.
  set (c0 := adv_mono (adv_mono (adv_write (mkCommands 0.0 0 0 0) cursor0)))
    in *.
  set (s1 := SoftRealtimeLoop.mk (1 + DT) (1 + DT) (LoopKiller.__init__ 0.0)
               DT None 0 0 0 0%Z true).
  set (c2 := adv_clock (adv_clock c0)).
  destruct (next_overrun s1 e c2) as [s2 [c3 [Hn Hc3]]];
    try reflexivity; try (simpl; unfold DT, FREQ; lra).
  decompose [and] Hc3. clear Hc3.
  set (st := mkStates 0 0.05 0 0 0).
  assert (Hsen : sensor e (sensor_i c3) = SensorData st) by reflexivity.
  pose proof (loop_body_data l0 e c3 st Hsen) as Hb. cbv zeta in Hb.
  assert (Hw : write_ok e (write_i c3) = false).
  { replace (write_i c3) with 1%nat by (symmetry; assumption). reflexivity. }
  rewrite Hw in Hb.
  match type of Hb with
  | _ = (_, adv_write ?x ?y) => set (cmd := x) in *; set (c4 := y) in *
  end.
  exists (adv_write cmd c4), (sent c4), cmd.
  split.
  { unfold main. rewrite (bind_eval _ _ _ _ _ _ Hs).
    rewrite (bind_eval _ _ e c0
               (SoftRealtimeLoop.mk 0 0 (LoopKiller.__init__ 0.0)
                  DT None 0 0 0 0%Z true) (adv_clock c0) eq_refl).
    rewrite (bind_eval _ _ e (adv_clock c0) s1 c2 eq_refl).
    cbn [for_loop].
    unfold bind at 1. rewrite (bind_eval _ _ _ _ _ _ Hn). cbv beta iota.
    unfold bind at 1. rewrite Hb. reflexivity. }
  split; [reflexivity|].
  assert (HTy : fresh_Ty l0 e c3 st = -0.55).
  { unfold fresh_Ty.
    replace (mono_i c3) with 2%nat by (symmetry; assumption).
    destruct (first_call _ _ (mono e 3) (theta_pitch st) Hp)
      as [E _]; [simpl; lra|].
    simpl in E. simpl. rewrite E. rewrite clamp_mid.
    - unfold THETA_KP. lra.
    - unfold THETA_KP, MAX_DUTY. lra. }
  assert (Hm1 : motor_1_duty cmd
                = (-0.3333) * (0 - 2.8284 * fresh_Ty l0 e c3 st))
    by reflexivity.
  assert (Hk : kill cmd = kill (commands l0)) by reflexivity.
  rewrite Hk, Hc, Hm1, HTy. simpl kill.
  split; [reflexivity|]. split; lra.
Qed.

Lemma C7_skipped_tick_witness :
  sensor env_ticking (sensor_i cursor0) = SensorKeyError /\
  exists c',
    loop_body locals0 env_ticking cursor0 = (Ok locals0, c') /\
    sent c' = sent cursor0.
Proof.
  split; [reflexivity|].
  destruct (proj1 (C7_skipped_tick locals0 env_ticking cursor0 eq_refl))
    as [c' [H [Hs _]]].
  exists c'. split; assumption.
Defined.

Lemma C1_pitch_torque_is_fresh_witness :
  sensor env_leaning (sensor_i cursor0)
    = SensorData (mkStates (-0.08) (-0.08) 0 0 0) /\
  exists r c' cmd,
    loop_body locals0 env_leaning cursor0 = (r, c') /\
    sent c' = sent cursor0 ++ [cmd].
Proof.
  split; [reflexivity|].
  destruct (proj2 (C1_pitch_torque_is_fresh locals0 env_leaning cursor0
                     (mkStates (-0.08) (-0.08) 0 0 0) eq_refl))
    as [r [c' [cmd [H [Hs _]]]]].
  exists r, c', cmd. split; assumption.
Defined.

(** Two ticks handed out on a concrete run: the second deadline after the
    epoch is held. *)
Lemma after_ticks_example :
  exists self s,
    after_ticks self 2 s /\
    SoftRealtimeLoop.t0 s = 1 + DT /\
    SoftRealtimeLoop.t1 s = 1 + DT + 2 * DT.
Proof.
  set (self := SoftRealtimeLoop.mk 0 0 (LoopKiller.__init__ 0.0)
                 DT None 0 0 0 0%Z true).
  set (c1 := adv_clock cursor0).
  set (s1 := SoftRealtimeLoop.mk (1 + DT) (1 + DT) (LoopKiller.__init__ 0.0)
               DT None 0 0 0 0%Z true).
  assert (A0 : after_ticks self 0 s1).
  { apply (ticks_iter self env_ticking c1 s1 (adv_clock c1)). reflexivity. }
  destruct (next_overrun s1 env_ticking (adv_clock c1))
    as [s2 [c3 [Hn Hc3]]];
    try reflexivity; try (simpl; unfold DT, FREQ; lra).
  decompose [and] Hc3. clear Hc3.
  pose proof (next_tick_grid _ _ _ _ _ _ _ Hn) as [G1 [G0 [Gd _]]].
  simpl in G1, G0, Gd.
  assert (Hk : SoftRealtimeLoop.killer s2 = LoopKiller.__init__ 0.0)
    by assumption.
  assert (Hci : clock_i c3 = 5%nat) by assumption.
  destruct (next_overrun s2 env_ticking c3) as [s3 [c4 [Hn' _]]].
  - rewrite Hk. reflexivity.
  - rewrite Hk. reflexivity.
  - reflexivity.
  - reflexivity.
  - rewrite G1, Hci. simpl. unfold DT, FREQ. lra.
  - rewrite G1, Hci. simpl. unfold DT, FREQ. lra.
  - pose proof (next_tick_grid _ _ _ _ _ _ _ Hn') as [K1 [K0 [Kd _]]].
    exists self, s3. split.
    + eapply ticks_next; [eapply ticks_next; [exact A0|exact Hn]|exact Hn'].
    + rewrite K0, K1, G0, G1, Gd. split; lra.
Qed.

(** * Further properties *)

(** ** The killer's flags *)

Lemma getter_true_latched (k : LoopKiller.t) e c k' c' :
  LoopKiller.kill_now k e c = (Ok (true, k'), c') ->
  LoopKiller._kill_now k' = true /\
  LoopKiller._fade_time k' = LoopKiller._fade_time k.
Proof.
  intros H. unfold LoopKiller.kill_now in H.
  destruct (LoopKiller._kill_now k) eqn:Hn.
  - inv_ret H. split; [exact Hn|reflexivity].
  - destruct (LoopKiller._kill_soon k).
    + inv_bind H. inv_bind H. cbv zeta in H.
      destruct (Rgt_dec _ _); inv_ret H; simpl; split; congruence.
    + inv_ret H.
Qed.

(** X1: once a read of [kill_now] has returned [True] the flag is latched:
    every later read returns [True] without consulting the clock, and a
    further cancellation request keeps the flag set; only assigning
    [False] clears it, after which the killer is as newly created. *)
Theorem kill_now_latches (k : LoopKiller.t) e c k' c' :
  LoopKiller.kill_now k e c = (Ok (true, k'), c') ->
  LoopKiller._kill_now k' = true /\
  (forall e1 c1, LoopKiller.kill_now k' e1 c1 = (Ok (true, k'), c1)) /\
  (forall e1 c1, exists k'' c1',
     LoopKiller.set_kill_now true k' e1 c1 = (Ok k'', c1') /\
     LoopKiller._kill_now k'' = true) /\
  (forall e1 c1 e2 c2,
     LoopKiller.set_kill_now false k' e1 c1
       = (Ok (LoopKiller.__init__ (LoopKiller._fade_time k)), c1) /\
     LoopKiller.kill_now (LoopKiller.__init__ (LoopKiller._fade_time k)) e2 c2
       = (Ok (false, LoopKiller.__init__ (LoopKiller._fade_time k)), c2)).
Proof.
  intros H. destruct (getter_true_latched k e c k' c' H) as [Hl Hf].
  split; [exact Hl|]. split; [|split].
  - intros e1 c1. unfold LoopKiller.kill_now. rewrite Hl. reflexivity.
  - intros e1 c1. unfold LoopKiller.set_kill_now.
    destruct (LoopKiller._kill_soon k').
    + eexists. eexists. split; reflexivity.
    + destruct (Rgt_dec _ _).
      * eexists. eexists. split; [reflexivity|]. exact Hl.
      * eexists. eexists. split; reflexivity.
  - intros e1 c1 e2 c2. unfold LoopKiller.set_kill_now. rewrite Hf.
    split; reflexivity.
Qed.

Lemma kill_now_latches_witness :
  LoopKiller._kill_now (LoopKiller.mk 0 None true false) = true.
Proof.
  exact (proj1 (kill_now_latches (LoopKiller.mk 0 None true false)
                  (env_const 5) cursor0 _ cursor0 eq_refl)).
Defined.

(** X2: after a soft-cancel request at time [t_req] with fade duration
    [F > 0], a read of [kill_now] is [False] and changes nothing as long
    as the elapsed time is at most [F], and is [True], latching the flag,
    once it exceeds [F].  At elapsed time exactly [F] the fade multiplier
    is already 0.0 while [kill_now] is still [False]. *)
Theorem fade_expires (F : R) (e : Env) (c : Cursor) :
  0 < F ->
  exists k c',
    LoopKiller.handle_signal (LoopKiller.__init__ F) e c = (Ok k, c') /\
    let t_req := clock e (clock_i c) in
    forall e1 c1,
      let t := clock e1 (clock_i c1) - t_req in
      (t <= F ->
       LoopKiller.kill_now k e1 c1 = (Ok (false, k), adv_clock c1)) /\
      (F < t ->
       exists k',
         LoopKiller.kill_now k e1 c1 = (Ok (true, k'), adv_clock c1) /\
         LoopKiller._kill_now k' = true) /\
      (t = F ->
       LoopKiller.get_fade k e1 c1 = (Ok 0, adv_clock c1) /\
       LoopKiller.kill_now k e1 c1 = (Ok (false, k), adv_clock c1)).
Proof.
  intros HF. eexists. eexists. split; [apply request_on_fresh; exact HF|].
  intros t_req e1 c1 t. subst t t_req.
  assert (Hle : clock e1 (clock_i c1) - clock e (clock_i c) <= F ->
                LoopKiller.kill_now
                  (LoopKiller.mk F (Some (clock e (clock_i c))) false true)
                  e1 c1
                = (Ok (false,
                       LoopKiller.mk F (Some (clock e (clock_i c))) false true),
                   adv_clock c1)).
  { intros Ht. unfold LoopKiller.kill_now, bind, time_time, py_sub, ret.
    simpl. destruct (Rgt_dec _ _); [lra|reflexivity]. }
  split; [exact Hle|]. split.
  - intros Ht. unfold LoopKiller.kill_now, bind, time_time, py_sub, ret.
    simpl. destruct (Rgt_dec _ _); [|lra].
    eexists. split; reflexivity.
  - intros Ht. split; [|apply Hle; lra].
    rewrite (get_fade_fading _ e1 c1 (clock e (clock_i c)));
      [| reflexivity | reflexivity | exact HF].
    simpl. destruct (Rge_dec _ _); [reflexivity|lra].
Qed.

Lemma fade_expires_witness :
  exists k c',
    LoopKiller.handle_signal (LoopKiller.__init__ 2) (env_const 5) cursor0
      = (Ok k, c') /\
    LoopKiller.kill_now k (env_const 7) cursor0
      = (Ok (false, k), adv_clock cursor0) /\
    LoopKiller.get_fade k (env_const 7) cursor0 = (Ok 0, adv_clock cursor0).
Proof.
  destruct (fade_expires 2 (env_const 5) cursor0) as [k [c' [H1 H2]]];
    [lra|].
  exists k, c'. split; [exact H1|].
  destruct (H2 (env_const 7) cursor0) as [_ [_ H3]].
  destruct H3 as [H4 H5]; [simpl; lra|]. split; assumption.
Defined.

(** ** The iterator protocol of the loop *)

Lemma poll_true_latched s e c s' c' :
  SoftRealtimeLoop.kill_now s e c = (Ok (true, s'), c') ->
  LoopKiller._kill_now (SoftRealtimeLoop.killer s') = true.
Proof.
  unfold SoftRealtimeLoop.kill_now. intros H.
  inv_bind H. inv_bind H. inv_bind H. destruct a1 as [b k1]. inv_ret H.
  simpl. eapply getter_true_latched. eassumption.
Qed.

Lemma poll_when_latched s e c :
  LoopKiller._kill_now (SoftRealtimeLoop.killer s) = true ->
  exists s' c',
    SoftRealtimeLoop.kill_now s e c = (Ok (true, s'), c') /\
    LoopKiller._kill_now (SoftRealtimeLoop.killer s') = true /\
    same_grid s s' /\
    SoftRealtimeLoop.sleep_t_agg s' = SoftRealtimeLoop.sleep_t_agg s.
Proof.
  intros Hl. unfold SoftRealtimeLoop.kill_now, signal_delivered, bind.
  destruct (handler e (handler_i c)).
  - unfold LoopKiller.handle_signal, LoopKiller.set_kill_now.
    destruct (LoopKiller._kill_soon (SoftRealtimeLoop.killer s)).
    + unfold ret, LoopKiller.kill_now. simpl.
      eexists. eexists. split; [reflexivity|]. simpl.
      split; [reflexivity|]. split; [apply same_grid_set_killer|reflexivity].
    + destruct (Rgt_dec _ _).
      * unfold bind, time_time, ret, LoopKiller.kill_now. simpl.
        rewrite Hl. eexists. eexists. split; [reflexivity|]. simpl.
        split; [reflexivity|].
        split; [apply same_grid_set_killer|reflexivity].
      * unfold ret, LoopKiller.kill_now. simpl.
        eexists. eexists. split; [reflexivity|]. simpl.
        split; [reflexivity|].
        split; [apply same_grid_set_killer|reflexivity].
  - unfold ret, LoopKiller.kill_now. rewrite Hl.
    eexists. eexists. split; [reflexivity|]. simpl.
    split; [exact Hl|]. split; [apply same_grid_set_killer|reflexivity].
Qed.

(** X3: a call of [__next__] that raises [StopIteration] leaves the
    deadline, the epoch, the period and the jitter statistics as they
    were, and from then on every call raises [StopIteration] again,
    whatever the clock reads and whichever signals arrive. *)
Theorem stop_iteration_is_final fuel s e c s' c' :
  SoftRealtimeLoop.__next__ fuel s e c = (Ok (None, s'), c') ->
  same_grid s s' /\
  forall fuel1 e1 c1, exists s'' c1',
    SoftRealtimeLoop.__next__ fuel1 s' e1 c1 = (Ok (None, s''), c1') /\
    same_grid s' s''.
Proof.
  intros H. split; [eapply next_stop_grid; exact H|].
  assert (Hl : LoopKiller._kill_now (SoftRealtimeLoop.killer s') = true).
  { unfold SoftRealtimeLoop.__next__ in H.
    inv_bind H. destruct a as [b s1]. destruct b.
    - inv_ret H. eapply poll_true_latched. exact Hm.
    - inv_bind H. inv_bind H. inv_bind H. destruct a1 as [b s4].
      destruct b.
      + inv_ret H. eapply poll_true_latched. exact Hm2.
      + simpl in H. destruct (SoftRealtimeLoop.ttarg s4);
          inv_bind H; inv_ret H. }
  intros fuel1 e1 c1.
  destruct (poll_when_latched s' e1 c1 Hl) as [s'' [c1' [Hp [_ [G _]]]]].
  exists s'', c1'. split; [|exact G].
  unfold SoftRealtimeLoop.__next__, bind. rewrite Hp. reflexivity.
Qed.

Lemma stop_iteration_is_final_witness :
  exists s' c',
    SoftRealtimeLoop.__next__ 1
      (SoftRealtimeLoop.mk 0 0 (LoopKiller.mk 0 None true false)
                           DT None 0 0 0 0%Z true)
      env_ticking cursor0 = (Ok (None, s'), c') /\
    forall fuel1 e1 c1, exists s'' c1',
      SoftRealtimeLoop.__next__ fuel1 s' e1 c1 = (Ok (None, s''), c1').
Proof.
  eexists. eexists. split; [reflexivity|].
  intros fuel1 e1 c1.
  destruct (proj2 (stop_iteration_is_final 1
                     (SoftRealtimeLoop.mk 0 0 (LoopKiller.mk 0 None true false)
                                          DT None 0 0 0 0%Z true)
                     env_ticking cursor0 _ _ eq_refl) fuel1 e1 c1)
    as [s'' [c1' [H _]]].
  exists s'', c1'. exact H.
Defined.

(** ** Jitter statistics *)

(** What a tick does to the statistics: the first one only sets the
    target, every later one adds one error sample. *)
Lemma next_tick_sums fuel s e c t s' c' :
  SoftRealtimeLoop.__next__ fuel s e c = (Ok (Some t, s'), c') ->
  SoftRealtimeLoop.report s' = SoftRealtimeLoop.report s /\
  match SoftRealtimeLoop.ttarg s with
  | None =>
      SoftRealtimeLoop.n s' = SoftRealtimeLoop.n s /\
      SoftRealtimeLoop.sum_err s' = SoftRealtimeLoop.sum_err s /\
      SoftRealtimeLoop.sum_var s' = SoftRealtimeLoop.sum_var s
  | Some _ =>
      exists error,
        SoftRealtimeLoop.n s' = (SoftRealtimeLoop.n s + 1)%Z /\
        SoftRealtimeLoop.sum_err s' = SoftRealtimeLoop.sum_err s + error /\
        SoftRealtimeLoop.sum_var s' = SoftRealtimeLoop.sum_var s + error ^ 2
  end.
Proof.
  unfold SoftRealtimeLoop.__next__. intros H.
  inv_bind H. destruct a as [b s1]. apply kill_now_grid in Hm.
  destruct b; [inv_ret H|].
  inv_bind H. apply coarse_wait_grid in Hm0.
  inv_bind H. apply busy_wait_grid in Hm1.
  inv_bind H. destruct a1 as [b s4]. apply kill_now_grid in Hm2.
  destruct b; [inv_ret H|].
  pose proof (same_grid_trans _ _ _ Hm
               (same_grid_trans _ _ _ Hm0
                 (same_grid_trans _ _ _ Hm1 Hm2))) as G.
  destruct G as [_ [_ [_ [Gt [Ge [Gv [Gn Gr]]]]]]].
  simpl in H. rewrite <- Gt, <- Gn, <- Ge, <- Gv, <- Gr.
  destruct (SoftRealtimeLoop.ttarg s4);
    inv_bind H; inv_ret H; simpl.
  - split; [reflexivity|]. eexists. repeat split.
  - repeat split.
Qed.

(** Adding a sample keeps the sum of squares above the squared sum
    divided by the count. *)
Lemma stats_step (N S V x : R) :
  0 <= N -> 0 <= V -> S ^ 2 <= N * V ->
  (S + x) ^ 2 <= (N + 1) * (V + x ^ 2).
Proof.
  intros HN HV H.
  destruct (Req_dec_T N 0) as [H0|H0].
  - subst N. assert (HS : S = 0) by nra. subst S. nra.
  - assert (HNpos : 0 < N) by lra.
    apply (Rmult_le_reg_l N); [exact HNpos|].
    pose proof (pow2_ge_0 (S - N * x)) as Hsq.
    assert (Hp : 0 <= (N + 1) * (N * V - S ^ 2)) by nra.
    nra.
Qed.

Lemma after_ticks_stats self k s :
  fresh_stats self ->
  after_ticks self k s ->
  SoftRealtimeLoop.n s = Z.of_nat (pred k) /\
  (k = 0%nat -> SoftRealtimeLoop.ttarg s = None) /\
  (k <> 0%nat -> SoftRealtimeLoop.ttarg s <> None) /\
  ((k <= 1)%nat ->
   SoftRealtimeLoop.sum_err s = 0 /\ SoftRealtimeLoop.sum_var s = 0) /\
  stats_inv s /\
  SoftRealtimeLoop.report s = SoftRealtimeLoop.report self /\
  SoftRealtimeLoop.dt s = SoftRealtimeLoop.dt self.
Proof.
  intros [Ft [Fn [Fe Fv]]].
  induction 1 as [e c s c' H | k s fuel e c t s' c' Hk IH H].
  - unfold SoftRealtimeLoop.__iter__ in H. inv_bind H. inv_ret H.
    unfold stats_inv. simpl. rewrite Fn, Fe, Fv.
    repeat split; try assumption; try congruence; try lia; simpl; lra.
  - destruct IH as [In [I0 [IS [Iz [[Vn [Vv Vc]] [Ir Id]]]]]].
    pose proof (next_tick_count _ _ _ _ _ _ _ H) as [Ht _].
    pose proof (next_tick_grid _ _ _ _ _ _ _ H) as [_ [_ [Hd _]]].
    pose proof (next_tick_sums _ _ _ _ _ _ _ H) as [Hr Hs].
    destruct k as [|k].
    + rewrite (I0 eq_refl) in Hs. destruct Hs as [Hn [He Hv]].
      destruct (Iz (Nat.le_0_1)) as [Ze Zv].
      unfold stats_inv. rewrite Hn, He, Hv, In, Ze, Zv. simpl.
      repeat split; try congruence; try lia; lra.
    + specialize (IS (Nat.neq_succ_0 k)).
      destruct (SoftRealtimeLoop.ttarg s) as [tt|]; [|congruence].
      destruct Hs as [x [Hn [He Hv]]].
      unfold stats_inv. rewrite Hn, He, Hv.
      split; [rewrite In; simpl pred; lia|].
      split; [discriminate|]. split; [intros _; exact Ht|].
      split; [intros Hle; lia|].
      split; [|split; congruence].
      split; [lia|]. split; [pose proof (pow2_ge_0 x); lra|].
      rewrite plus_IZR. apply stats_step; [apply IZR_le; lia|exact Vv|exact Vc].
Qed.

(** Ticks can always be handed out to a loop that nobody cancels: each
    call finds the clock at the deadline. *)
Lemma ticks_exist self k :
  LoopKiller._kill_now (SoftRealtimeLoop.killer self) = false ->
  LoopKiller._kill_soon (SoftRealtimeLoop.killer self) = false ->
  exists s,
    after_ticks self k s /\
    SoftRealtimeLoop.killer s = SoftRealtimeLoop.killer self.
Proof.
  intros Hn Hs. induction k as [|k [s [Hk Hkil]]].
  - exists (SoftRealtimeLoop.set_epoch (0 + SoftRealtimeLoop.dt self) self).
    split; [|reflexivity].
    apply (ticks_iter self (env_const 0) cursor0 _ (adv_clock cursor0)).
    reflexivity.
  - destruct (next_overrun s (env_const (SoftRealtimeLoop.t1 s)) cursor0)
      as [s' [c' [H Hc]]];
      try (rewrite Hkil; assumption); try reflexivity; try (simpl; lra).
    exists s'. split; [eapply ticks_next; eassumption|].
    decompose [and] Hc. congruence.
Qed.

(** X4: on a loop object whose statistics have not started, the first
    tick handed out only establishes the timing target: after [k] ticks
    the sample count is [k - 1], and after the first tick both error sums
    are still zero. *)
Theorem first_tick_not_measured self k s :
  fresh_stats self ->
  after_ticks self k s ->
  SoftRealtimeLoop.n s = Z.of_nat (pred k) /\
  ((k <= 1)%nat ->
   SoftRealtimeLoop.sum_err s = 0 /\ SoftRealtimeLoop.sum_var s = 0).
Proof.
  intros Hf Hk.
  destruct (after_ticks_stats self k s Hf Hk) as [Hn [_ [_ [Hz _]]]].
  split; assumption.
Qed.

Lemma fresh_stats_loop0 : fresh_stats loop0.
Proof. unfold fresh_stats, loop0. simpl. repeat split. Qed.

Lemma first_tick_not_measured_witness :
  exists s, after_ticks loop0 1 s /\ SoftRealtimeLoop.n s = 0%Z.
Proof.
  destruct (ticks_exist loop0 1 eq_refl eq_refl) as [s [Hk _]].
  exists s. split; [exact Hk|].
  exact (proj1 (first_tick_not_measured loop0 1 s fresh_stats_loop0 Hk)).
Defined.

(** X5: on a reporting loop object with fresh statistics and a nonzero
    period, once three ticks or more were handed out [__del__] produces
    its report: both divisions have nonzero divisors, the argument of the
    square root is never negative, and the cycle count printed is
    [k - 1].  Only a clock reading equal to the epoch could still fail
    it, at the division by the elapsed time. *)
Theorem report_after_three_ticks self k s e c :
  fresh_stats self ->
  SoftRealtimeLoop.report self = true ->
  SoftRealtimeLoop.dt self <> 0 ->
  after_ticks self k s ->
  (3 <= k)%nat ->
  clock e (clock_i c) <> SoftRealtimeLoop.t0 s ->
  exists r,
    SoftRealtimeLoop.__del__ s e c = (Ok (Some r), adv_clock c) /\
    SoftRealtimeLoop.cycles r = Z.of_nat (k - 1).
Proof.
  intros Hf Hr Hd Hk H3 Hc.
  destruct (after_ticks_stats self k s Hf Hk)
    as [Hn [_ [_ [_ [[Vn [Vv Vc]] [Ir Id]]]]]].
  assert (Hn2 : (2 <= SoftRealtimeLoop.n s)%Z) by (rewrite Hn; lia).
  assert (HN : 0 < IZR (SoftRealtimeLoop.n s)) by (apply IZR_lt; lia).
  assert (HN1 : 0 < IZR (SoftRealtimeLoop.n s - 1)) by (apply IZR_lt; lia).
  destruct (del_reports s e c) as [r [Hdel Hcy]]; try congruence.
  - apply Rmult_le_pos; [|left; apply Rinv_0_lt_compat; exact HN1].
    assert (SoftRealtimeLoop.sum_err s ^ 2 / IZR (SoftRealtimeLoop.n s)
            <= SoftRealtimeLoop.sum_var s).
    { apply (Rmult_le_reg_l (IZR (SoftRealtimeLoop.n s))); [exact HN|].
      unfold Rdiv. rewrite <- Rmult_assoc, Rmult_comm, <- Rmult_assoc.
      rewrite Rinv_l by lra. lra. }
    lra.
  - exists r. split; [exact Hdel|]. rewrite Hcy, Hn.
    f_equal. lia.
Qed.

Lemma report_after_three_ticks_witness :
  exists s r,
    after_ticks loop0 3 s /\
    SoftRealtimeLoop.__del__ s (env_const (SoftRealtimeLoop.t0 s + 1)) cursor0
      = (Ok (Some r), adv_clock cursor0) /\
    SoftRealtimeLoop.cycles r = 2%Z.
Proof.
  destruct (ticks_exist loop0 3 eq_refl eq_refl) as [s [Hk _]].
  destruct (report_after_three_ticks loop0 3 s
              (env_const (SoftRealtimeLoop.t0 s + 1)) cursor0
              fresh_stats_loop0 eq_refl DT_nonzero Hk (le_n 3))
    as [r [H1 H2]]; [simpl; lra|].
  exists s, r. repeat split; assumption.
Defined.

(** ** Waiting for the deadline *)

(** X6: a tick that is already late is handed out at once and the lateness
    is not compensated: when the clock is at or past the deadline and no
    cancellation is pending, [__next__] sleeps nothing, reads the clock
    three times, and moves the deadline to the old deadline plus one
    period, wherever the clock stands. *)
Theorem overrun_is_not_compensated fuel s e c :
  LoopKiller._kill_now (SoftRealtimeLoop.killer s) = false ->
  LoopKiller._kill_soon (SoftRealtimeLoop.killer s) = false ->
  handler e (handler_i c) = false ->
  handler e (S (handler_i c)) = false ->
  SoftRealtimeLoop.t1 s <= clock e (clock_i c) ->
  SoftRealtimeLoop.t1 s <= clock e (S (clock_i c)) ->
  exists s' c',
    SoftRealtimeLoop.__next__ (S fuel) s e c
      = (Ok (Some (SoftRealtimeLoop.t1 s + SoftRealtimeLoop.dt s
                   - SoftRealtimeLoop.t0 s), s'), c') /\
    SoftRealtimeLoop.t1 s' = SoftRealtimeLoop.t1 s + SoftRealtimeLoop.dt s /\
    SoftRealtimeLoop.sleep_t_agg s' = SoftRealtimeLoop.sleep_t_agg s /\
    clock_i c' = (3 + clock_i c)%nat.
Proof.
  intros Hn Hs Hh1 Hh2 Hc1 Hc2.
  destruct s as [a0 a1 k d tt se sv sl nn rp]. simpl in *.
  unfold SoftRealtimeLoop.__next__, SoftRealtimeLoop.kill_now,
    SoftRealtimeLoop.coarse_wait, SoftRealtimeLoop.busy_wait,
    LoopKiller.kill_now, signal_delivered, time_time, bind, ret.
  simpl. rewrite Hh1, Hn, Hs. simpl.
  unfold PRECISION_OF_SLEEP.
  destruct (Rlt_dec _ _); [lra|]. simpl.
  destruct (Rlt_dec _ _); [lra|]. simpl.
  rewrite Hh2, Hn, Hs. simpl.
  destruct tt; simpl; eexists; eexists; (split; [reflexivity|]);
    simpl; repeat split.
Qed.

Lemma overrun_is_not_compensated_witness :
  exists s' c',
    SoftRealtimeLoop.__next__ 1 loop0 (env_const 10) cursor0
      = (Ok (Some (0 + DT - 0), s'), c') /\
    SoftRealtimeLoop.t1 s' = 0 + DT.
Proof.
  destruct (overrun_is_not_compensated 0 loop0 (env_const 10) cursor0)
    as [s' [c' [H [H1 _]]]];
    try reflexivity; try (simpl; lra).
  exists s', c'. split; assumption.
Defined.

Lemma grows_ret {A} (a : A) : clock_grows (ret a).
Proof. intros e c r c' H. inversion H. apply le_n. Qed.

Lemma grows_raise {A} x : clock_grows (@raise A x).
Proof. intros e c r c' H. inversion H. apply le_n. Qed.

Lemma grows_starve {A} : clock_grows (@starve A).
Proof. intros e c r c' H. inversion H. apply le_n. Qed.

Lemma grows_bind {A B} (m : M A) (f : A -> M B) :
  clock_grows m -> (forall a, clock_grows (f a)) -> clock_grows (bind m f).
Proof.
  intros Hm Hf e c r c' H. unfold bind in H.
  destruct (m e c) as [[a|x|] c1] eqn:E; apply Hm in E.
  - apply Hf in H. lia.
  - inversion H; subst. exact E.
  - inversion H; subst. exact E.
Qed.

Lemma grows_time_time : clock_grows time_time.
Proof. intros e c r c' H. inversion H. simpl. lia. Qed.

Lemma grows_sigtimedwait : clock_grows sigtimedwait.
Proof. intros e c r c' H. inversion H. simpl. lia. Qed.

Lemma grows_signal_delivered : clock_grows signal_delivered.
Proof. intros e c r c' H. inversion H. simpl. lia. Qed.

Lemma grows_py_sub x y : clock_grows (py_sub x y).
Proof. destruct y; [apply grows_ret|apply grows_raise]. Qed.

Create HintDb clock.

#[local] Hint Resolve grows_ret grows_raise grows_starve grows_time_time
  grows_sigtimedwait grows_signal_delivered grows_py_sub : clock.

Ltac grows :=
  repeat first
    [ apply grows_bind
    | progress cbv beta zeta
    | lazymatch goal with
      | |- clock_grows _ => fail
      | |- forall _, _ => intro
      end
    | match goal with
      | |- clock_grows (match ?x with (_, _) => _ end) => destruct x
      | |- clock_grows (if ?b then _ else _) => destruct b
      | |- clock_grows (match ?x with Some _ => _ | None => _ end) =>
          destruct x
      end
    | solve [auto with clock] ].

Lemma grows_killer_get k : clock_grows (LoopKiller.kill_now k).
Proof. unfold LoopKiller.kill_now. grows. Qed.

Lemma grows_killer_set v k : clock_grows (LoopKiller.set_kill_now v k).
Proof. unfold LoopKiller.set_kill_now. grows. Qed.

Lemma grows_handle_signal k : clock_grows (LoopKiller.handle_signal k).
Proof. apply grows_killer_set. Qed.

#[local] Hint Resolve grows_killer_get grows_killer_set
  grows_handle_signal : clock.

Lemma grows_kill_now s : clock_grows (SoftRealtimeLoop.kill_now s).
Proof. unfold SoftRealtimeLoop.kill_now. grows. Qed.

Lemma grows_stop s : clock_grows (SoftRealtimeLoop.stop s).
Proof. unfold SoftRealtimeLoop.stop. grows. Qed.

#[local] Hint Resolve grows_kill_now grows_stop : clock.

Lemma grows_coarse_wait fuel : forall s,
  clock_grows (SoftRealtimeLoop.coarse_wait fuel s).
Proof.
  induction fuel as [|fuel IH]; intros s; simpl; [apply grows_starve|].
  unfold time_sleep. grows.
Qed.

(** When the busy wait ends, either the kill flag is latched or the clock
    was read at or past the deadline. *)
Lemma busy_wait_exit fuel : forall s e c s' c',
  SoftRealtimeLoop.busy_wait fuel s e c = (Ok s', c') ->
  LoopKiller._kill_now (SoftRealtimeLoop.killer s') = true \/
  exists i, (clock_i c <= i < clock_i c')%nat /\
            SoftRealtimeLoop.t1 s <= clock e i.
Proof.
  induction fuel as [|fuel IH]; intros s e c s' c' H; simpl in H.
  - discriminate.
  - inv_bind H. unfold time_time in Hm. inversion Hm; subst; clear Hm.
    destruct (Rlt_dec _ _) as [Hlt|Hge].
    + inv_bind H. destruct a as [b s1]. destruct b.
      * inv_ret H. left. eapply poll_true_latched. exact Hm.
      * inv_bind H. inv_bind H.
        pose proof (grows_kill_now _ _ _ _ _ Hm) as G1.
        pose proof (grows_sigtimedwait _ _ _ _ Hm0) as G2.
        assert (G3 : (clock_i c1 <= clock_i c2)%nat /\ same_grid s1 a0).
        { destruct a.
          - split; [exact (grows_stop _ _ _ _ _ Hm1)|].
            eapply stop_grid. exact Hm1.
          - inv_ret Hm1. split; [apply le_n|apply same_grid_refl]. }
        destruct G3 as [G3 [_ [T1 _]]].
        apply kill_now_grid in Hm. destruct Hm as [_ [T0 _]].
        destruct (IH _ _ _ _ _ H) as [Hk|[i [Hi Ht]]]; [left; exact Hk|].
        right. exists i. simpl in G1. split; [lia|].
        rewrite T1, T0 in Ht. exact Ht.
    + inv_ret H. right. exists (clock_i c). simpl. split; [lia|lra].
Qed.

(** X7: a tick is never handed out before the clock was seen at or past
    the deadline: a call of [__next__] that returns has read, during the
    call, a clock value not earlier than the deadline it held. *)
Theorem tick_not_before_deadline fuel s e c t s' c' :
  SoftRealtimeLoop.__next__ fuel s e c = (Ok (Some t, s'), c') ->
  exists i, (clock_i c <= i < clock_i c')%nat /\
            SoftRealtimeLoop.t1 s <= clock e i.
Proof.
  unfold SoftRealtimeLoop.__next__. intros H.
  inv_bind H. destruct a as [b s1]. destruct b; [inv_ret H|].
  inv_bind H. inv_bind H. inv_bind H. destruct a1 as [b s4].
  destruct b; [inv_ret H|].
  pose proof (grows_kill_now _ _ _ _ _ Hm) as G1.
  pose proof (grows_coarse_wait _ _ _ _ _ _ Hm0) as G2.
  pose proof (grows_kill_now _ _ _ _ _ Hm2) as G4.
  assert (G5 : (clock_i c3 <= clock_i c')%nat).
  { simpl in H. destruct (SoftRealtimeLoop.ttarg s4);
      inv_bind H; inv_ret H;
      unfold time_time in *;
      match goal with Ht : (_, _) = (_, _) |- _ => inversion Ht end;
      simpl; lia. }
  apply kill_now_grid in Hm. destruct Hm as [_ [T0 _]].
  apply coarse_wait_grid in Hm0. destruct Hm0 as [_ [T1 _]].
  destruct (busy_wait_exit _ _ _ _ _ _ Hm1) as [Hk|[i [Hi Ht]]].
  - destruct (poll_when_latched a0 e c2 Hk) as [s5 [c5 [Hp _]]].
    rewrite Hp in Hm2. discriminate.
  - exists i. split; [lia|]. rewrite T1, T0 in Ht. exact Ht.
Qed.

Lemma tick_not_before_deadline_witness :
  exists i, (0 <= i)%nat /\ SoftRealtimeLoop.t1 loop0 <= clock (env_const 10) i.
Proof.
  destruct (next_overrun loop0 (env_const 10) cursor0)
    as [s' [c' [H _]]];
    try reflexivity; try (simpl; lra).
  destruct (tick_not_before_deadline _ _ _ _ _ _ _ H) as [i [Hi Ht]].
  exists i. split; [lia|exact Ht].
Defined.

(** ** Stopping [run] from the tick function *)

Lemma busy_wait_latched fuel s e c :
  LoopKiller._kill_now (SoftRealtimeLoop.killer s) = true ->
  exists s' c',
    SoftRealtimeLoop.busy_wait (S fuel) s e c = (Ok s', c') /\
    LoopKiller._kill_now (SoftRealtimeLoop.killer s') = true /\
    same_grid s s'.
Proof.
  intros Hl. simpl. unfold bind at 1. unfold time_time.
  destruct (Rlt_dec _ _).
  - destruct (poll_when_latched s e (adv_clock c) Hl)
      as [s' [c' [Hp [Hl' [G _]]]]].
    unfold bind. rewrite Hp. exists s', c'. split; [reflexivity|].
    split; assumption.
  - exists s, (adv_clock c). split; [reflexivity|].
    split; [exact Hl|apply same_grid_refl].
Qed.

(** X8: when the tick function returns [0] on a loop with no fade and no
    cancellation pending, [run] makes exactly that one pass: [stop] sets
    the kill flag at once, the wait for the deadline is cut short, the
    deadline is still advanced by one period, and the loop ends. *)
Theorem run_stops_on_zero {A : Type} (f : A -> M (bool * A)) p fuel
    s a a' e c c2 :
  LoopKiller._kill_now (SoftRealtimeLoop.killer s) = false ->
  LoopKiller._kill_soon (SoftRealtimeLoop.killer s) = false ->
  LoopKiller._fade_time (SoftRealtimeLoop.killer s) <= 0 ->
  handler e (handler_i c) = false ->
  f a e (adv_handler (adv_clock c)) = (Ok (true, a'), c2) ->
  exists s' c',
    SoftRealtimeLoop.run f p (S (S fuel)) s a e c = (Ok (1%nat, s', a'), c') /\
    LoopKiller._kill_now (SoftRealtimeLoop.killer s') = true /\
    SoftRealtimeLoop.t1 s' =
      SoftRealtimeLoop.t0 s'
      + match p with None => SoftRealtimeLoop.dt s | Some d => d end.
Proof.
  intros Hn Hs HF Hh Hf.
  destruct s as [a0 a1 k d tt se sv sl nn rp]. simpl in *.
  set (d' := match p with None => d | Some x => x end).
  set (now := clock e (clock_i c)).
  set (s0 := SoftRealtimeLoop.mk (now + d') (now + d') k d tt se sv sl nn rp).
  assert (Hrun : SoftRealtimeLoop.run f p (S (S fuel))
                   (SoftRealtimeLoop.mk a0 a1 k d tt se sv sl nn rp) a e c
                 = SoftRealtimeLoop.run_loop f d' (S (S fuel)) 0%nat s0 a e
                     (adv_clock c)).
  { reflexivity. }
  assert (Hp0 : SoftRealtimeLoop.kill_now s0 e (adv_clock c)
                = (Ok (false, s0), adv_handler (adv_clock c))).
  { unfold SoftRealtimeLoop.kill_now, signal_delivered, bind, ret,
      LoopKiller.kill_now. simpl. rewrite Hh. simpl. rewrite Hn, Hs.
    reflexivity. }
  set (k1 := LoopKiller.mk (LoopKiller._fade_time k)
               (LoopKiller._soft_kill_time k) true
               (LoopKiller._kill_soon k)).
  set (s1 := SoftRealtimeLoop.mk (now + d') (now + d') k1 d tt se sv sl nn rp).
  assert (Hstop : SoftRealtimeLoop.stop s0 e c2 = (Ok s1, c2)).
  { unfold SoftRealtimeLoop.stop, bind, LoopKiller.set_kill_now, ret, s1, k1.
    simpl. rewrite Hs. destruct (Rgt_dec _ _); [lra|reflexivity]. }
  destruct (busy_wait_latched (S fuel) s1 e c2 eq_refl)
    as [s2 [c3 [Hb [Hl2 G2]]]].
  set (s3 := SoftRealtimeLoop.set_t1 (SoftRealtimeLoop.t1 s2 + d') s2).
  assert (Hl3 : LoopKiller._kill_now (SoftRealtimeLoop.killer s3) = true)
    by exact Hl2.
  destruct (poll_when_latched s3 e c3 Hl3) as [s4 [c4 [Hp4 [Hl4 [G4 _]]]]].
  exists s4, c4. split; [|split; [exact Hl4|]].
  - rewrite Hrun. cbn [SoftRealtimeLoop.run_loop].
    rewrite (bind_eval _ _ _ _ _ _ Hp0). cbv beta iota.
    unfold SoftRealtimeLoop.run_pass.
    unfold bind at 1. unfold bind at 1. rewrite Hf.
    unfold bind at 1. rewrite Hstop.
    unfold bind at 1. rewrite Hb. unfold ret at 1.
    fold s3. rewrite (bind_eval _ _ _ _ _ _ Hp4). reflexivity.
  - destruct G4 as [K0 [K1 _]]. destruct G2 as [L0 [L1 _]].
    rewrite K0, K1. unfold s3. simpl. rewrite L0, L1. simpl. lra.
Qed.

Lemma run_stops_on_zero_witness :
  exists s' c',
    SoftRealtimeLoop.run (fun a : nat => ret (true, S a)) None 2 loop0 0%nat
      (env_const 10) cursor0 = (Ok (1%nat, s', 1%nat), c').
Proof.
  destruct (run_stops_on_zero (fun a : nat => ret (true, S a)) None 0
              loop0 0%nat 1%nat (env_const 10) cursor0
              (adv_handler (adv_clock cursor0)))
    as [s' [c' [H _]]];
    try reflexivity; try (simpl; lra).
  exists s', c'. exact H.
Defined.

(** ** Kinematics and mixing as linear maps *)

Lemma J_entries :
  exists a b,
    a <> 0 /\ b <> 0 /\
    J11 = -2 * a /\ J12 = a /\ J22 = - sqrt 3 * a /\ J31 = b.
Proof.
  exists (RW / (3 * RK * cos ALPHA)), (RW / (3 * RK * sin ALPHA)).
  pose proof cos_ALPHA_pos as Hc. pose proof sin_ALPHA_pos as Hs.
  assert (Ha : 0 < RW / (3 * RK * cos ALPHA)).
  { apply Rdiv_lt_0_compat; [unfold RW; lra|].
    apply Rmult_lt_0_compat; [unfold RK; lra|exact Hc]. }
  assert (Hb : 0 < RW / (3 * RK * sin ALPHA)).
  { apply Rdiv_lt_0_compat; [unfold RW; lra|].
    apply Rmult_lt_0_compat; [unfold RK; lra|exact Hs]. }
  split; [lra|]. split; [lra|].
  unfold J11, J12, J22, J31, Rdiv. repeat split; ring.
Qed.

(** X9: the kinematic matrix loses no information: two triples of wheel
    velocities with the same body-frame rates [J . dpsi] are equal. *)
Theorem J_is_injective (v w : Vec3) :
  matmul J v = matmul J w -> v = w.
Proof.
  destruct J_entries as [a [b [Ha [Hb [E11 [E12 [E22 E31]]]]]]].
  destruct v as [x0 x1 x2], w as [y0 y1 y2].
  unfold matmul, dot, J. simpl. unfold J13, J21, J23, J32, J33.
  rewrite E11, E12, E22, E31. intros H. inversion H as [[H0 H1 H2]].
  assert (Hs3 : 0 < sqrt 3) by (apply sqrt_lt_R0; lra).
  assert (K0 : a * (-2 * (x0 - y0) + (x1 - y1) + (x2 - y2)) = 0) by lra.
  assert (K1 : (sqrt 3 * a) * ((x1 - y1) - (x2 - y2)) = 0) by lra.
  assert (K2 : b * ((x0 - y0) + (x1 - y1) + (x2 - y2)) = 0) by lra.
  apply Rmult_integral in K0. destruct K0 as [K0|K0]; [contradiction|].
  apply Rmult_integral in K2. destruct K2 as [K2|K2]; [contradiction|].
  apply Rmult_integral in K1. destruct K1 as [K1|K1].
  - apply Rmult_integral in K1. destruct K1; [lra|contradiction].
  - f_equal; lra.
Qed.

Lemma J_is_injective_witness : mkVec3 1 2 3 = mkVec3 1 2 3.
Proof. exact (J_is_injective (mkVec3 1 2 3) (mkVec3 1 2 3) eq_refl). Defined.

(** X10: the mixing equations can be undone.  The three duties sum to
    [-0.9999 * Tz] whatever the roll and pitch torques are, motor 1 does
    not depend on the roll torque, and two torque triples that give the
    same three duties are equal. *)
Theorem mix_is_invertible (Tx Ty Tz Tx' Ty' Tz' : R) (cmd cmd' : Commands) :
  motor_1_duty (mix Tx Ty Tz cmd) + motor_2_duty (mix Tx Ty Tz cmd)
    + motor_3_duty (mix Tx Ty Tz cmd) = -0.9999 * Tz /\
  motor_1_duty (mix Tx Ty Tz cmd) = motor_1_duty (mix Tx' Ty Tz cmd') /\
  (motor_1_duty (mix Tx Ty Tz cmd) = motor_1_duty (mix Tx' Ty' Tz' cmd') ->
   motor_2_duty (mix Tx Ty Tz cmd) = motor_2_duty (mix Tx' Ty' Tz' cmd') ->
   motor_3_duty (mix Tx Ty Tz cmd) = motor_3_duty (mix Tx' Ty' Tz' cmd') ->
   Tx = Tx' /\ Ty = Ty' /\ Tz = Tz').
Proof.
  unfold mix. simpl. split; [lra|]. split; [reflexivity|].
  intros H1 H2 H3. repeat split; lra.
Qed.

(** ** The yaw torque written by the gamepad callbacks *)

Lemma MAX_ROTATION_ITER_value : MoController.MAX_ROTATION_ITER = 150%nat.
Proof.
  unfold MoController.MAX_ROTATION_ITER.
  replace (Int_part (MoController.MAX_ROTATION_TIME / DT)) with 150%Z;
    [reflexivity|].
  apply Int_part_spec.
  unfold MoController.MAX_ROTATION_TIME, DT, FREQ. lra.
Qed.

(** X11: one press of R1 or L1 stores 150 yaw torques, the first of them
    0; the L1 sequence is the R1 sequence negated, value by value; every
    value that [Tz] can hold is within [MAX_TZ]; and because the sine is
    taken of the iteration count itself, the torque of a single press
    changes sign: the second value of an R1 press is positive, the sixth
    negative. *)
Theorem yaw_profile :
  length MoController.on_R1_press = 150%nat /\
  length MoController.on_L1_press = 150%nat /\
  nth 0 MoController.on_R1_press 0 = 0 /\
  (forall i,
     nth i MoController.on_L1_press 0 = - nth i MoController.on_R1_press 0) /\
  (forall x, MoController.Tz_value x -> Rabs x <= MoController.MAX_TZ) /\
  0 < nth 1 MoController.on_R1_press 0 /\
  nth 5 MoController.on_R1_press 0 < 0.
Proof.
  unfold MoController.on_R1_press, MoController.on_L1_press.
  rewrite !length_map, !length_seq, MAX_ROTATION_ITER_value.
  split; [reflexivity|]. split; [reflexivity|].
  assert (Hnth : forall (f : nat -> R) i,
            (i < 150)%nat -> nth i (map f (seq 0 150)) 0 = f i).
  { intros f i Hi.
    rewrite (nth_indep _ 0 (f 0%nat)) by (rewrite length_map, length_seq; lia).
    rewrite map_nth. rewrite seq_nth by lia. reflexivity. }
  split.
  { rewrite Hnth by lia. simpl. rewrite sin_0. lra. }
  split.
  { intros i. destruct (Nat.lt_ge_cases i 150) as [Hi|Hi].
    - rewrite !Hnth by lia. lra.
    - rewrite !nth_overflow by (rewrite length_map, length_seq; lia). lra. }
  split; [exact Tz_value_bounded|].
  rewrite !Hnth by lia. unfold MoController.MAX_TZ.
  pose proof PI_4 as Hpi4. pose proof PI2_3_2 as Hpi3.
  split.
  - assert (0 < sin (INR 1)) by (apply sin_gt_0; simpl; lra). lra.
  - assert (sin (INR 5) < 0) by (apply sin_lt_0; simpl; lra). lra.
Qed.

(** ** The tilt display *)

Lemma dot_position_bound x y slope :
  exists p, dot_position_of x y slope = Some p.
Proof.
  unfold dot_position_of, Rgeb, Rleb.
  destruct (Rge_dec y 0), (Rge_dec x 0), (Rle_dec y 0), (Rle_dec x 0);
    simpl; try (eexists; reflexivity); exfalso; lra.
Qed.

Lemma arange_bounds start stop i :
  In i (arange start stop) -> (start <= i < stop)%Z.
Proof.
  unfold arange. intros H. apply in_map_iff in H.
  destruct H as [j [Hj Hin]]. apply in_seq in Hin. lia.
Qed.

(** X12: for a roll angle whose sine is not zero, [compute_dots] always
    binds [dot_position] (the four-way chain covers every sign
    combination) and returns only valid indices of the LED ring: every
    element lies in [0, N_DOTS), and there are at most [N_DOTS] of
    them. *)
Theorem dots_are_valid (roll pitch : R) :
  sin roll <> 0 ->
  exists dots,
    compute_dots roll pitch = Some dots /\
    Forall (fun i => (0 <= i < N_DOTS)%Z) dots /\
    (length dots <= Z.to_nat N_DOTS)%nat.
Proof.
  intros _. unfold compute_dots. cbv zeta.
  destruct (dot_position_bound (sin roll) (sin pitch)
              (atan (sin pitch / sin roll))) as [p Hp].
  rewrite Hp. eexists. split; [reflexivity|].
  set (cd := py_int ((p - ARC_START) / ARC_PER_DOT)).
  set (hd := py_int _).
  split.
  - apply Forall_forall. intros i Hi. apply arange_bounds in Hi.
    unfold N_DOTS in *.
    destruct (cd - hd <? 0)%Z eqn:E1; destruct (cd + hd + 1 >? 72)%Z eqn:E2;
      lia.
  - unfold arange. rewrite length_map, length_seq. unfold N_DOTS.
    destruct (cd - hd <? 0)%Z eqn:E1; destruct (cd + hd + 1 >? 72)%Z eqn:E2;
      lia.
Qed.

Lemma dots_are_valid_witness :
  exists dots,
    compute_dots 1 0 = Some dots /\
    Forall (fun i => (0 <= i < N_DOTS)%Z) dots.
Proof.
  destruct (dots_are_valid 1 0) as [dots [H1 [H2 _]]].
  - pose proof PI2_3_2. assert (0 < sin 1) by (apply sin_gt_0; lra). lra.
  - exists dots. split; assumption.
Defined.

Lemma py_int_between (q : R) (lo hi : Z) :
  (lo <= 0)%Z -> (0 <= hi)%Z ->
  IZR lo - 1 < q -> q < IZR hi + 1 ->
  (lo <= py_int q <= hi)%Z.
Proof.
  intros Hlo Hhi H1 H2. unfold py_int.
  destruct (Rle_dec 0 q) as [Hq|Hq].
  - destruct (base_Int_part q) as [B1 B2].
    assert (IZR (Int_part q) < IZR (hi + 1)) by (rewrite plus_IZR; lra).
    assert (IZR (-1) < IZR (Int_part q)) by lra.
    apply lt_IZR in H. apply lt_IZR in H0. lia.
  - destruct (base_Int_part (- q)) as [B1 B2].
    assert (IZR (Int_part (- q)) < IZR (- lo + 1)).
    { rewrite plus_IZR, opp_IZR. lra. }
    assert (IZR (-1) < IZR (Int_part (- q))) by lra.
    apply lt_IZR in H. apply lt_IZR in H0. lia.
Qed.

(** X13: the angular position of the display follows the sign of the
    roll: it lies strictly between 0 and pi when [sin roll > 0] and
    strictly between pi and 2 pi when [sin roll < 0].  The centre index
    computed from it lies between -3 and 75, so it can fall up to three
    places before or after the 72 dots of the ring. *)
Theorem dot_position_follows_roll (x y : R) :
  x <> 0 ->
  exists p,
    dot_position_of x y (atan (y / x)) = Some p /\
    (0 < x -> 0 < p < PI) /\
    (x < 0 -> PI < p < 2 * PI) /\
    (-3 <= py_int ((p - ARC_START) / ARC_PER_DOT) <= 75)%Z.
Proof.
  intros Hx. pose proof (atan_bound (y / x)) as [A1 A2].
  pose proof PI_RGT_0 as Hpi.
  assert (Hp : exists p,
            dot_position_of x y (atan (y / x)) = Some p /\
            (0 < x -> p = PI / 2 - atan (y / x)) /\
            (x < 0 -> p = 3 / 2 * PI - atan (y / x))).
  { unfold dot_position_of, Rgeb, Rleb.
    destruct (Rge_dec y 0), (Rge_dec x 0), (Rle_dec y 0), (Rle_dec x 0);
      simpl; try (exfalso; lra);
      eexists; (split; [reflexivity|]); split; intros; (reflexivity || lra). }
  destruct Hp as [p [Hp [Hpos Hneg]]].
  assert (Hrange : 0 < p < 2 * PI /\ (0 < x -> p < PI) /\ (x < 0 -> PI < p)).
  { destruct (Rlt_or_le 0 x) as [H|H].
    - rewrite (Hpos H). repeat split; intros; lra.
    - assert (H' : x < 0) by lra. rewrite (Hneg H').
      repeat split; intros; lra. }
  destruct Hrange as [[R1 R2] [R3 R4]].
  exists p. split; [exact Hp|].
  split; [intros H; split; [lra|exact (R3 H)]|].
  split; [intros H; split; [exact (R4 H)|lra]|].
  assert (Hper : ARC_PER_DOT = 11 * PI / 432).
  { unfold ARC_PER_DOT, ARC, ARC_STOP, ARC_START, deg2rad, N_DOTS. field. }
  assert (Hper_pos : 0 < ARC_PER_DOT) by (rewrite Hper; lra).
  set (q := (p - ARC_START) / ARC_PER_DOT).
  assert (Hq : q * ARC_PER_DOT = p - ARC_START).
  { unfold q. field. lra. }
  assert (Hs : ARC_START = PI / 12) by (unfold ARC_START, deg2rad; lra).
  apply py_int_between; try lia.
  - apply (Rmult_lt_reg_r ARC_PER_DOT); [exact Hper_pos|].
    rewrite Hq, Hs, Hper. simpl. lra.
  - apply (Rmult_lt_reg_r ARC_PER_DOT); [exact Hper_pos|].
    rewrite Hq, Hs, Hper. simpl. lra.
Qed.

Lemma dot_position_follows_roll_witness :
  exists p, dot_position_of 1 0 (atan (0 / 1)) = Some p /\ 0 < p < PI.
Proof.
  destruct (dot_position_follows_roll 1 0) as [p [H1 [H2 _]]]; [lra|].
  exists p. split; [exact H1|]. apply H2. lra.
Defined.

(** ** The commands of a whole run *)

Section Log.

Context {L : PIDLib}.
Variable P : Commands -> Prop.




Lemma send_appends_one cmd e c r c' :
  send_topic_data cmd e c = (r, c') -> sent c' = sent c ++ [cmd].
Proof.
  unfold send_topic_data. destruct (write_ok e (write_i c));
    intros H; inversion H; reflexivity.
Qed.

Lemma appends_send cmd :
  P cmd -> appends P (send_topic_data cmd) (fun _ => True).
Proof.
  intros Hc e c r c' H. exists [cmd].
  split; [exact (send_appends_one _ _ _ _ _ H)|].
  split; [constructor; [exact Hc|constructor]|trivial].
Qed.

End Log.

Section KillFlag.

Context {L : PIDLib}.





End KillFlag.


(** ** Finite differences across a skipped tick *)

Section Difference.

Context {L : PIDLib}.

(** X15: a skipped tick does not refresh [prev_dphi], and the divisor of
    the finite difference is always one period: when a full tick, a tick
    without state message and another full tick follow each other, the
    [ddphi] of the last one is the change of [J . dpsi] since the first
    one, two periods earlier, divided by [DT]. *)
Theorem difference_spans_skipped_tick (l l1 l3 : Locals) (e : Env)
    (c c1 c3 : Cursor) (st1 st2 : States) :
  sensor e (sensor_i c) = SensorData st1 ->
  loop_body l e c = (Ok l1, c1) ->
  sensor e (sensor_i c1) = SensorKeyError ->
  sensor e (S (sensor_i c1)) = SensorData st2 ->
  loop_body l1 e (adv_sensor c1) = (Ok l3, c3) ->
  loop_body l1 e c1 = (Ok l1, adv_sensor c1) /\
  ddphi l3 =
    vdiv (vsub (matmul J (mkVec3 (dpsi_1 st2) (dpsi_2 st2) (dpsi_3 st2)))
               (matmul J (mkVec3 (dpsi_1 st1) (dpsi_2 st1) (dpsi_3 st1))))
         DT /\
  prev_dphi l3 = matmul J (mkVec3 (dpsi_1 st2) (dpsi_2 st2) (dpsi_3 st2)).
Proof.
  intros Hs1 Hb1 Hk Hs2 Hb3.
  split; [apply loop_body_calibrating; exact Hk|].
  rewrite (loop_body_data l e c st1 Hs1) in Hb1. cbv zeta in Hb1.
  destruct (write_ok e (write_i c)); [|discriminate].
  inversion Hb1 as [[Hl1 Hc1]]. clear Hb1.
  rewrite (loop_body_data l1 e (adv_sensor c1) st2 Hs2) in Hb3.
  cbv zeta in Hb3.
  destruct (write_ok e (write_i (adv_sensor c1))); [|discriminate].
  inversion Hb3 as [[Hl3 Hc3]]. clear Hb3.
  rewrite <- Hl1. simpl. split; reflexivity.
Qed.

End Difference.

Lemma difference_spans_skipped_tick_witness :
  exists l3 : @Locals simple_pid,
    ddphi l3 =
      vdiv (vsub (matmul J (mkVec3 4 4 4)) (matmul J (mkVec3 1 2 3))) DT.
Proof.
  pose proof (loop_body_data locals0 env_gap cursor0
                (mkStates 0 0 1 2 3) eq_refl) as H1.
  cbv zeta in H1. simpl write_ok in H1. cbv iota in H1.
  match type of H1 with
  | _ = (Ok ?l, ?c) => set (l1 := l) in *; set (c1 := c) in *
  end.
  pose proof (loop_body_data l1 env_gap (adv_sensor c1)
                (mkStates 0 0 4 4 4) eq_refl) as H3.
  cbv zeta in H3. simpl write_ok in H3. cbv iota in H3.
  match type of H3 with
  | _ = (Ok ?l, ?c) => set (l3 := l) in *; set (c3 := c) in *
  end.
  exists l3.
  exact (proj1 (proj2 (difference_spans_skipped_tick locals0 l1 l3 env_gap
                         cursor0 c1 c3 (mkStates 0 0 1 2 3)
                         (mkStates 0 0 4 4 4)
                         eq_refl H1 eq_refl eq_refl H3))).
Defined.

(** ** Further edge behaviour *)

(** X16: after a soft-cancel request with fade duration [F > 0] the fade
    multiplier stays within [0, 1] as long as the wall clock has not gone
    back before the time of the request; a clock reading earlier than the
    request gives a multiplier above 1. *)
Theorem fade_range (F : R) (e : Env) (c : Cursor) :
  0 < F ->
  exists k c',
    LoopKiller.handle_signal (LoopKiller.__init__ F) e c = (Ok k, c') /\
    forall e1 c1, exists v,
      LoopKiller.get_fade k e1 c1 = (Ok v, adv_clock c1) /\
      (clock e (clock_i c) <= clock e1 (clock_i c1) -> 0 <= v <= 1) /\
      (clock e1 (clock_i c1) < clock e (clock_i c) -> 1 < v).
Proof.
  intros HF. eexists. eexists. split; [apply request_on_fresh; exact HF|].
  intros e1 c1. eexists. split.
  - apply (get_fade_fading _ e1 c1 (clock e (clock_i c)));
      [reflexivity|reflexivity|exact HF].
  - simpl. set (t := clock e1 (clock_i c1) - clock e (clock_i c)).
    assert (Hdiv : forall x, 0 <= x -> 0 <= x / F).
    { intros x Hx. apply Rmult_le_pos; [exact Hx|].
      left. apply Rinv_0_lt_compat. exact HF. }
    destruct (Rge_dec t F) as [Hge|Hlt]; split; intros Ht; try lra.
    + subst t. lra.
    + assert (0 <= t / F) by (apply Hdiv; subst t; lra).
      assert (t / F < 1).
      { apply (Rmult_lt_reg_r F); [exact HF|].
        unfold Rdiv. rewrite Rmult_assoc, Rinv_l by lra. lra. }
      lra.
    + assert (0 < (- t) / F).
      { apply Rdiv_lt_0_compat; [subst t; lra|exact HF]. }
      unfold Rdiv in *. rewrite Ropp_mult_distr_l_reverse in H. lra.
Qed.

Lemma fade_range_witness :
  exists k c' v,
    LoopKiller.handle_signal (LoopKiller.__init__ 2) (env_const 5) cursor0
      = (Ok k, c') /\
    LoopKiller.get_fade k (env_const 4) cursor0 = (Ok v, adv_clock cursor0) /\
    1 < v.
Proof.
  destruct (fade_range 2 (env_const 5) cursor0) as [k [c' [H1 H2]]]; [lra|].
  destruct (H2 (env_const 4) cursor0) as [v [H3 [_ H4]]].
  exists k, c', v. split; [exact H1|]. split; [exact H3|].
  apply H4. simpl. lra.
Defined.

Section Cancelled.

Context {L : PIDLib}.

(** X17: when a termination signal is already delivered at the first poll
    of the loop and the first serial write succeeds, [__main__] hands out
    no tick: it reads no state message and no yaw torque, and passes
    exactly two commands to the serial interface, the all-zero command
    and the kill command. *)
Theorem cancelled_before_first_tick (fuel : nat) (e : Env) (c : Cursor) :
  handler e (handler_i c) = true ->
  write_ok e (write_i c) = true ->
  exists r c',
    main (S fuel) e c = (r, c') /\
    sent c' = sent c ++ [mkCommands 0.0 0 0 0; mkCommands 1.0 0.0 0.0 0.0] /\
    sensor_i c' = sensor_i c /\
    yaw_i c' = yaw_i c /\
    (write_ok e (S (write_i c)) = true -> exists x, r = Ok x).
Proof.
  intros Hh Hw.
  unfold main, setup, shutdown, for_loop, SoftRealtimeLoop.__next__,
    SoftRealtimeLoop.__init__, SoftRealtimeLoop.__iter__,
    SoftRealtimeLoop.kill_now, LoopKiller.handle_signal,
    LoopKiller.set_kill_now, LoopKiller.kill_now, new_pid, send_topic_data,
    time_sleep, signal_delivered, time_time, bind, ret.
  simpl. rewrite Hw. simpl. rewrite Hh. simpl.
  destruct (Rgt_dec 0.0 0); [lra|]. simpl.
  destruct (write_ok e (S (write_i c))); eexists; eexists;
    (split; [reflexivity|]); simpl; rewrite <- app_assoc; simpl;
    repeat split; try discriminate.
  intros _. eexists. reflexivity.
Qed.

End Cancelled.

Lemma cancelled_before_first_tick_witness :
  exists r c',
    main (L := simple_pid) 1 env_cancelled cursor0 = (r, c') /\
    sent c' = [mkCommands 0.0 0 0 0; mkCommands 1.0 0.0 0.0 0.0].
Proof.
  destruct (cancelled_before_first_tick (L := simple_pid) 0 env_cancelled
              cursor0 eq_refl eq_refl) as [r [c' [H1 [H2 _]]]].
  exists r, c'. split; assumption.
Defined.

(** ** The sleep total *)

Lemma kill_now_sleep s e c b s' c' :
  SoftRealtimeLoop.kill_now s e c = (Ok (b, s'), c') ->
  SoftRealtimeLoop.sleep_t_agg s' = SoftRealtimeLoop.sleep_t_agg s.
Proof.
  unfold SoftRealtimeLoop.kill_now. intros H.
  inv_bind H. inv_bind H. inv_bind H. destruct a1 as [b1 k1].
  inv_ret H. reflexivity.
Qed.

Lemma stop_sleep s e c s' c' :
  SoftRealtimeLoop.stop s e c = (Ok s', c') ->
  SoftRealtimeLoop.sleep_t_agg s' = SoftRealtimeLoop.sleep_t_agg s.
Proof.
  unfold SoftRealtimeLoop.stop. intros H. inv_bind H. inv_ret H. reflexivity.
Qed.

Lemma busy_wait_sleep fuel : forall s e c s' c',
  SoftRealtimeLoop.busy_wait fuel s e c = (Ok s', c') ->
  SoftRealtimeLoop.sleep_t_agg s' = SoftRealtimeLoop.sleep_t_agg s.
Proof.
  induction fuel as [|fuel IH]; intros s e c s' c' H; simpl in H.
  - discriminate.
  - inv_bind H. destruct (Rlt_dec _ _).
    + inv_bind H. destruct a0 as [b s1].
      apply kill_now_sleep in Hm0. destruct b.
      * inv_ret H. exact Hm0.
      * inv_bind H. inv_bind H. apply IH in H. rewrite H, <- Hm0.
        destruct a0.
        -- eapply stop_sleep. exact Hm2.
        -- inv_ret Hm2. reflexivity.
    + inv_ret H. reflexivity.
Qed.

Lemma coarse_wait_sleep e (He : clock_monotone e) fuel : forall s c s' c',
  SoftRealtimeLoop.coarse_wait fuel s e c = (Ok s', c') ->
  SoftRealtimeLoop.sleep_t_agg s <= SoftRealtimeLoop.sleep_t_agg s'.
Proof.
  induction fuel as [|fuel IH]; intros s c s' c' H; simpl in H.
  - discriminate.
  - inv_bind H. destruct (Rlt_dec _ _).
    + inv_bind H. destruct a0 as [b s1].
      apply kill_now_sleep in Hm0. destruct b.
      * inv_ret H. lra.
      * inv_bind H. inv_bind H. inv_bind H. inv_bind H.
        unfold time_time in Hm1, Hm2, Hm4. unfold time_sleep, ret in Hm3.
        inversion Hm1; subst. inversion Hm2; subst.
        inversion Hm3; subst. inversion Hm4; subst.
        apply IH in H. simpl in H.
        pose proof (He (clock_i c1) (S (S (clock_i c1)))
                      (Nat.le_trans _ _ _ (Nat.le_succ_diag_r _)
                                          (Nat.le_succ_diag_r _))).
        lra.
    + inv_ret H. lra.
Qed.

(** X18: with a wall clock that never runs backwards, the time accounted
    as slept never decreases over a call of [__next__], whether it hands
    out a tick or raises [StopIteration]; only the coarse wait adds to it,
    the busy wait and the polls of the killer leave it alone. *)
Theorem sleep_total_grows fuel s e c r s' c' :
  clock_monotone e ->
  SoftRealtimeLoop.__next__ fuel s e c = (Ok (r, s'), c') ->
  SoftRealtimeLoop.sleep_t_agg s <= SoftRealtimeLoop.sleep_t_agg s' /\
  (forall s1 c1 s2 c2,
     SoftRealtimeLoop.busy_wait fuel s1 e c1 = (Ok s2, c2) ->
     SoftRealtimeLoop.sleep_t_agg s2 = SoftRealtimeLoop.sleep_t_agg s1).
Proof.
  intros He H. split; [|intros s1 c1 s2 c2; apply busy_wait_sleep].
  unfold SoftRealtimeLoop.__next__ in H.
  inv_bind H. destruct a as [b s1]. apply kill_now_sleep in Hm.
  destruct b; [inv_ret H; lra|].
  inv_bind H. apply (coarse_wait_sleep e He) in Hm0.
  inv_bind H. apply busy_wait_sleep in Hm1.
  inv_bind H. destruct a1 as [b s4]. apply kill_now_sleep in Hm2.
  destruct b; [inv_ret H; lra|].
  simpl in H. destruct (SoftRealtimeLoop.ttarg s4);
    inv_bind H; inv_ret H; simpl; lra.
Qed.

Lemma clock_monotone_const x : clock_monotone (env_const x).
Proof. intros i j _. simpl. lra. Qed.

Lemma sleep_total_grows_witness :
  exists s' c',
    SoftRealtimeLoop.__next__ 1 loop0 (env_const 10) cursor0
      = (Ok (Some (0 + DT - 0), s'), c') /\
    SoftRealtimeLoop.sleep_t_agg loop0 <= SoftRealtimeLoop.sleep_t_agg s'.
Proof.
  destruct (next_overrun loop0 (env_const 10) cursor0)
    as [s' [c' [H _]]];
    try reflexivity; try (simpl; lra).
  exists s', c'. split; [exact H|].
  exact (proj1 (sleep_total_grows _ _ _ _ _ _ _
                  (clock_monotone_const 10) H)).
Defined.

(** ** Ticking through a fade *)




Section Fading.

Variable e : Env.
Variables F treq T : R.
Variables N i0 h0 g0 : nat.

Hypothesis no_signal : forall j, (h0 <= j)%nat -> handler e j = false.
Hypothesis none_pending : forall j, (g0 <= j)%nat -> sigwait e j = false.
Hypothesis within_fade :
  forall i, (i0 <= i <= Nat.max N i0 + 6)%nat -> clock e i - treq <= F.
Hypothesis deadline_reached : forall i, (N <= i)%nat -> T <= clock e i.



End Fading.


